(** * Teardown of a compose project: [local/compose/down.go]

    A shallow embedding of [composeService.Down] and of the functions it is
    built from, over an explicit model of the container runtime, of the
    progress writer and of the goroutines started through [errgroup].

    Conventions.
    - A Go [error] is a string (its message); [nil] is [None].
    - A Go map read [m[k]] of an absent key gives the zero value: [label].
    - Everything the program does to the outside world is appended to a
      chronological trace of [Action]s: events handed to the progress writer
      and requests sent to the runtime client.
    - Goroutines are small program-counter machines; a schedule picks which
      one performs its next atomic step. *)

From Stdlib Require Import Ascii String.
From stdpp Require Import base option list strings gmap.

(** ** Data model *)

Definition error := string.

(** [moby.Container], the fields the teardown reads. *)
Record Container := mkContainer {
  ID : string;
  Names : list string;
  Labels : gmap string string
}.

(** [moby.NetworkResource], the fields the teardown reads. *)
Record Network := mkNetwork {
  NetID : string;
  NetName : string;
  NetLabels : gmap string string
}.

(** [types.ServiceConfig] of compose-go, the fields the teardown reads. *)
Record ServiceConfig := mkService {
  SvcName : string;
  DependsOn : list string
}.

(** [types.Project] of compose-go. *)
Record Project := mkProject {
  Name : string;
  Services : list ServiceConfig
}.

(** [compose.DownOptions]. *)
Record DownOptions := mkDownOptions {
  OptProject : option Project;
  RemoveOrphans : bool
}.

(** [cli.ProjectOptions] of compose-go. *)
Record ProjectOptions := mkProjectOptions {
  PoName : string;
  WorkingDir : string;
  ConfigPaths : list string;
  Environment : list string
}.

#[global] Instance Container_eq_dec : EqDecision Container.
Proof. solve_decision. Defined.

#[global] Instance Network_eq_dec : EqDecision Network.
Proof. solve_decision. Defined.

#[global] Instance ServiceConfig_eq_dec : EqDecision ServiceConfig.
Proof. solve_decision. Defined.

(** [c.Labels[k]]: the empty string when the key is absent. *)
Definition label (c : Container) (k : string) : string :=
  default "" (Labels c !! k).

(** The zero value of [moby.Container]. *)
Definition zeroContainer : Container := mkContainer "" [] ∅.

(** ** Go library functions used by the reconstruction *)

(** [strings.Split(s, sep)] for a one-byte separator: the segments of [s]
    around each occurrence of [sep]; always at least one segment. *)
Fixpoint strings_Split (s : string) (sep : ascii) : list string :=
  match s with
  | EmptyString => [""]
  | String c rest =>
      if bool_decide (c = sep) then "" :: strings_Split rest sep
      else match strings_Split rest sep with
           | seg :: segs => String c seg :: segs
           | [] => [String c ""]
           end
  end.

Definition isPathSeparator (c : ascii) : bool := bool_decide (c = "/"%char).

Fixpoint dropSeparators (l : list ascii) : list ascii :=
  match l with
  | c :: r => if isPathSeparator c then dropSeparators r else l
  | [] => []
  end.

Fixpoint untilSeparator (l : list ascii) : list ascii :=
  match l with
  | c :: r => if isPathSeparator c then [] else c :: untilSeparator r
  | [] => []
  end.

(** [filepath.Base] on a Unix path: ["."] for the empty path, trailing
    slashes stripped, then the last element; ["/"] when only slashes. *)
Definition filepath_Base (path : string) : string :=
  match path with
  | EmptyString => "."
  | _ =>
      let stripped := dropSeparators (rev (list_ascii_of_string path)) in
      match rev (untilSeparator stripped) with
      | [] => "/"
      | last => string_of_list_ascii last
      end
  end.

(** ** Resource Set *)

Abbreviation Containers := (list Container).

(** Modelled from the spec: [Containers.split] is declared outside
    [down.go]. The spec gives it as partition-by-predicate: it returns
    (matching, non-matching) as two new ordered sequences, preserving the
    relative order, and does not change its input. One pass over the
    sequence, each record appended to one of the two results. *)
Fixpoint split (containers : Containers) (predicate : Container -> bool)
  : Containers * Containers :=
  match containers with
  | [] => ([], [])
  | c :: rest =>
      let '(matched, others) := split rest predicate in
      if predicate c then (c :: matched, others) else (matched, c :: others)
  end.

(** ** Collaborators outside [down.go] *)

(** The argument of [filters.NewArgs]. [projectFilter] is declared outside
    [down.go]; it is kept as a constructor: the filter selecting the
    resources labelled with the given project name. *)
Inductive Filter := projectFilter (projectName : string).

(** Events of the [progress] package, by constructor function. *)
Inductive Event :=
| StoppingEvent (id : string)
| StoppedEvent (id : string)
| RemovingEvent (id : string)
| RemovedEvent (id : string)
| ErrorMessageEvent (id : string) (msg : string).

(** What the teardown does to the outside world. *)
Inductive Action :=
| AEvent (e : Event)
| AContainerList (f : Filter)
| AContainerStop (id : string)
| AContainerRemove (id : string) (force : bool)
| ANetworkList (f : Filter)
| ANetworkRemove (id : string).

#[global] Instance Filter_eq_dec : EqDecision Filter.
Proof. solve_decision. Defined.

#[global] Instance Event_eq_dec : EqDecision Event.
Proof. solve_decision. Defined.

#[global] Instance Action_eq_dec : EqDecision Action.
Proof. solve_decision. Defined.

(** Package-level constants and helpers declared outside [down.go], and the
    library and operating-system functions whose results the program cannot
    determine itself. *)
Class Platform := {
  serviceLabel : string;
  configFilesLabel : string;
  workingDirLabel : string;
  projectLabel : string;
  getCanonicalContainerName : Container -> string;
  os_Environ : list string;
  filepath_Abs : string -> error + string;
  ProjectFromOptions : ProjectOptions -> error + Project;
  IsNotFound : error -> bool
}.

(** [s.apiClient]: the runtime client, a state machine over a runtime state
    [RT] that the program never inspects. [ContainerList] is always asked
    for all containers ([All: true]), [ContainerStop] is given no timeout
    and [ContainerRemove] takes the [Force] flag. *)
Class ApiClient (RT : Type) := {
  ContainerList : Filter -> RT -> RT * (error + list Container);
  ContainerStop : string -> RT -> RT * option error;
  ContainerRemove : string -> bool -> RT -> RT * option error;
  NetworkList : Filter -> RT -> RT * (error + list Network);
  NetworkRemove : string -> RT -> RT * option error
}.

(** One scheduling decision inside [removeContainers]: the spawning loop
    advances, or the goroutine started for the k-th container does. *)
Inductive Choice := Main | Go (k : nat).

(** The Go scheduler: it decides from what has happened so far. *)
Class Scheduler := {
  containerSchedule : list Action -> list Container -> list Choice;
  networkSchedule : list Action -> list Network -> list nat
}.

(** Outcome of a Go function: a value, a returned error, or a panic. *)
Inductive result (A : Type) :=
| Ok (a : A)
| Fail (e : error)
| Panic (msg : string).

Arguments Ok {A} a.
Arguments Fail {A} e.
Arguments Panic {A} msg.

(** An [error] return value as a result. *)
Definition ofError (r : option error) : result unit :=
  match r with
  | None => Ok tt
  | Some e => Fail e
  end.

(** Modelled from the spec: the [CycleError] that [InReverseDependencyOrder]
    (declared outside [down.go]) fails with on a cyclic graph. *)
Definition CycleError : error := "cycle found in service dependencies".

(** [errgroup.Group] keeps the first non-nil error returned to it. *)
Definition firstError (recorded returned : option error) : option error :=
  match recorded with
  | Some e => Some e
  | None => returned
  end.

(** Options of compose-go's [cli] package, as functions on the options
    under construction. *)
Definition ProjectOptionsFn := ProjectOptions -> result ProjectOptions.

(** [cli.NewProjectOptions]: the options start from the given config paths
    and every option function is applied in turn; the first error aborts. *)
Fixpoint applyOptions (opts : list ProjectOptionsFn) (o : ProjectOptions)
  : result ProjectOptions :=
  match opts with
  | [] => Ok o
  | fn :: rest =>
      match fn o with
      | Ok o' => applyOptions rest o'
      | Fail e => Fail e
      | Panic m => Panic m
      end
  end.

Definition NewProjectOptions (configs : list string) (opts : list ProjectOptionsFn)
  : result ProjectOptions :=
  applyOptions opts (mkProjectOptions "" "" configs []).

(** [cli.WithName]. *)
Definition WithName (name : string) : ProjectOptionsFn :=
  fun o => Ok (mkProjectOptions name (WorkingDir o) (ConfigPaths o) (Environment o)).

(** ** Dependency-Order Executor *)

(** [a] declares a dependency on [b]: an edge of the graph the executor
    walks. *)
Definition dependsOn (a b : ServiceConfig) : bool :=
  bool_decide (SvcName b ∈ DependsOn a).

(** No service still waiting depends on [s]. *)
Definition isLeaf (remaining : list ServiceConfig) (s : ServiceConfig) : bool :=
  forallb (fun t => negb (dependsOn t s)) remaining.

(** Modelled from the spec: the order of [InReverseDependencyOrder], which
    is declared outside [down.go]. The spec asks for the reverse of a
    topological (dependencies first) order: a service is handled only once
    every service that depends on it has been handled, and a graph with a
    cycle is an error. Round by round, the services nobody waiting depends
    on are taken, in declaration order. *)
Fixpoint reverseOrder (fuel : nat) (remaining : list ServiceConfig)
  : error + list ServiceConfig :=
  match remaining with
  | [] => inr []
  | _ =>
      match fuel with
      | 0 => inl CycleError
      | S fuel' =>
          match filter (fun s => Is_true (isLeaf remaining s)) remaining with
          | [] => inl CycleError
          | leaves =>
              match reverseOrder fuel'
                      (filter (fun s => ¬ Is_true (isLeaf remaining s)) remaining) with
              | inl e => inl e
              | inr later => inr (leaves ++ later)
              end
          end
      end
  end.

(** Modelled from the spec: the order in which [InReverseDependencyOrder]
    handles the services of a project, or [CycleError]. *)
Definition reverseDependencyOrder (project : Project) : error + list ServiceConfig :=
  reverseOrder (length (Services project)) (Services project).

(** Picks elements of [l] by position among those left; what the picks
    leave out follows in order. A chosen order of completion. *)
Fixpoint pickOrder {A} (picks : list nat) (l : list A) : list A :=
  match picks with
  | [] => l
  | k :: picks' =>
      match l !! k with
      | Some x => x :: pickOrder picks' (delete k l)
      | None => pickOrder picks' l
      end
  end.

(** ** The teardown over a runtime *)

Section Teardown.
Context {RT : Type} `{!ApiClient RT} `{!Platform} `{!Scheduler}.

(** The runtime's state and everything done so far. *)
Record World := mkWorld {
  rt : RT;
  trace : list Action
}.

(** [w.Event(e)]. *)
Definition emit (e : Event) (w : World) : World :=
  mkWorld (rt w) (trace w ++ [AEvent e]).

(** A request to the runtime client, recorded as [a]. *)
Definition call {A} (a : Action) (request : RT -> RT * A) (w : World) : World * A :=
  let '(rt', r) := request (rt w) in
  (mkWorld rt' (trace w ++ [a]), r).

Definition eventNameOf (c : Container) : string :=
  "Container " +:+ getCanonicalContainerName c.

(** *** Sequential code: state and early return *)

Definition M (A : Type) := World -> World * result A.

Definition ret {A} (a : A) : M A := fun w => (w, Ok a).

Definition bind {A B} (m : M A) (k : A -> M B) : M B :=
  fun w =>
    match m w with
    | (w', Ok a) => k a w'
    | (w', Fail e) => (w', Fail e)
    | (w', Panic msg) => (w', Panic msg)
    end.

Definition pure_result {A} (r : result A) : M A := fun w => (w, r).

(** A function returning [(value, error)] from the runtime. *)
Definition request {A} (a : Action) (f : RT -> RT * (error + A)) : M A :=
  fun w =>
    match call a f w with
    | (w', inl e) => (w', Fail e)
    | (w', inr v) => (w', Ok v)
    end.

(** A function returning only [error]. *)
Definition returning (f : World -> World * option error) : M unit :=
  fun w => let '(w', r) := f w in (w', ofError r).

(** *** [cli.WithOsEnv], [cli.WithWorkingDirectory] *)

Definition WithOsEnv : ProjectOptionsFn :=
  fun o => Ok (mkProjectOptions (PoName o) (WorkingDir o) (ConfigPaths o)
                 (Environment o ++ os_Environ)).

Definition WithWorkingDirectory (wd : string) : ProjectOptionsFn :=
  fun o =>
    if bool_decide (wd = "") then Ok o
    else match filepath_Abs wd with
         | inl e => Fail e
         | inr abs => Ok (mkProjectOptions (PoName o) abs (ConfigPaths o) (Environment o))
         end.

(** *** [loadProjectOptionsFromLabels] (lines 166-176) *)

Definition loadProjectOptionsFromLabels (c : Container) : result ProjectOptions :=
  let relativePathConfigFiles := strings_Split (label c configFilesLabel) ","%char in
  let configFiles :=
    foldl (fun configFiles c => configFiles ++ [filepath_Base c]) [] relativePathConfigFiles in
  NewProjectOptions configFiles
    [WithOsEnv;
     WithWorkingDirectory (label c workingDirLabel);
     WithName (label c projectLabel)].

(** *** [projectFromContainerLabels] (lines 130-164) *)

Definition projectFromContainerLabels (projectName : string) : M Project :=
  bind (request (AContainerList (projectFilter projectName))
                (ContainerList (projectFilter projectName)))
  (fun containers =>
     let fakeProject := mkProject projectName [] in
     match containers with
     | [] => ret fakeProject
     | first :: _ =>
         bind (pure_result (loadProjectOptionsFromLabels first))
         (fun options =>
            match ConfigPaths options with
            | [] => pure_result (Panic "index out of range [0] with length 0")
            | path0 :: _ =>
                if bool_decide (path0 = "-") then
                  ret (mkProject projectName
                         (foldl (fun services container =>
                                   services ++ [mkService (label container serviceLabel) []])
                                (Services fakeProject) containers))
                else
                  match ProjectFromOptions options with
                  | inl e => pure_result (Fail e)
                  | inr project => ret project
                  end
            end)
     end).

(** *** [stopContainers] (lines 92-105), run without interruption *)

Fixpoint stopContainers (containers : list Container) (w : World) : World * option error :=
  match containers with
  | [] => (w, None)
  | toStop :: rest =>
      let eventName := eventNameOf toStop in
      let w1 := emit (StoppingEvent eventName) w in
      match call (AContainerStop (ID toStop)) (ContainerStop (ID toStop)) w1 with
      | (w2, Some err) =>
          (emit (ErrorMessageEvent eventName "Error while Stopping") w2, Some err)
      | (w2, None) =>
          stopContainers rest (emit (StoppedEvent eventName) w2)
      end
  end.

(** *** [stopContainers] as a machine: one visible action per step *)

Inductive StopPc :=
| SLoop (rest : list Container)                         (* line 93 *)
| SCall (toStop : Container) (rest : list Container)    (* line 97 *)
| SFailed (toStop : Container) (err : error)            (* line 99 *)
| SStopped (toStop : Container) (rest : list Container) (* line 102 *)
| SReturn (r : option error).                           (* lines 100, 104 *)

Definition stopStep (s : StopPc) (w : World) : StopPc * World :=
  match s with
  | SLoop [] => (SReturn None, w)
  | SLoop (toStop :: rest) =>
      (SCall toStop rest, emit (StoppingEvent (eventNameOf toStop)) w)
  | SCall toStop rest =>
      match call (AContainerStop (ID toStop)) (ContainerStop (ID toStop)) w with
      | (w', Some err) => (SFailed toStop err, w')
      | (w', None) => (SStopped toStop rest, w')
      end
  | SFailed toStop err =>
      (SReturn (Some err),
       emit (ErrorMessageEvent (eventNameOf toStop) "Error while Stopping") w)
  | SStopped toStop rest =>
      (SLoop rest, emit (StoppedEvent (eventNameOf toStop)) w)
  | SReturn r => (SReturn r, w)
  end.

(** *** [removeContainers] (lines 107-128)

    The range loop owns one variable [container] for all iterations (range
    loops before Go 1.22, the language this code, written against the
    Docker client of 2020, is compiled as); the function literal handed to
    [eg.Go] refers to that variable and to the per-iteration copy
    [toDelete]. A goroutine reads [container] when it
    evaluates the argument of [s.stopContainers] (line 113), which is
    whenever the scheduler lets it run. *)

Inductive UnitPc :=
| UStart                      (* lines 112-113: the argument is built *)
| UStopping (s : StopPc)      (* inside s.stopContainers *)
| URemove                     (* line 118 *)
| URemoveFailed (err : error) (* line 120 *)
| URemoved                    (* line 123 *)
| UReturn (r : option error)  (* lines 121, 124 *)
| UDone.

(** One goroutine started by [eg.Go]. *)
Record Unit := mkUnit {
  toDelete : Container;
  pc : UnitPc
}.

(** The function while its errgroup is running. *)
Record Group := mkGroup {
  container : Container;        (* the range variable *)
  pending : list Container;     (* what the range loop has not reached *)
  units : list Unit;
  groupErr : option error;      (* errgroup's first error *)
  world : World
}.

Definition setUnit (k : nat) (u : Unit) (g : Group) (w : World) : Group :=
  mkGroup (container g) (pending g) (<[k := u]> (units g)) (groupErr g) w.

(** The goroutine returns [r]: errgroup keeps the first error. *)
Definition finishUnit (k : nat) (u : Unit) (r : option error) (g : Group) : Group :=
  mkGroup (container g) (pending g) (<[k := mkUnit (toDelete u) UDone]> (units g))
          (firstError (groupErr g) r) (world g).

Definition unitStep (k : nat) (u : Unit) (g : Group) : Group :=
  let eventName := eventNameOf (toDelete u) in
  let w := world g in
  match pc u with
  | UStart =>
      setUnit k (mkUnit (toDelete u) (UStopping (SLoop [container g]))) g w
  | UStopping (SReturn (Some err)) =>
      finishUnit k u (Some err) g
  | UStopping (SReturn None) =>
      setUnit k (mkUnit (toDelete u) URemove) g (emit (RemovingEvent eventName) w)
  | UStopping s =>
      let '(s', w') := stopStep s w in
      setUnit k (mkUnit (toDelete u) (UStopping s')) g w'
  | URemove =>
      match call (AContainerRemove (ID (toDelete u)) true)
                 (ContainerRemove (ID (toDelete u)) true) w with
      | (w', Some err) => setUnit k (mkUnit (toDelete u) (URemoveFailed err)) g w'
      | (w', None) => setUnit k (mkUnit (toDelete u) URemoved) g w'
      end
  | URemoveFailed err =>
      setUnit k (mkUnit (toDelete u) (UReturn (Some err))) g
              (emit (ErrorMessageEvent eventName "Error while Removing") w)
  | URemoved =>
      setUnit k (mkUnit (toDelete u) (UReturn None)) g (emit (RemovedEvent eventName) w)
  | UReturn r => finishUnit k u r g
  | UDone => g
  end.

(** One scheduling decision. The loop assigns the next element to
    [container], copies it into [toDelete] and starts a goroutine. A
    decision for a goroutine that does not exist or has returned, or for
    the loop once it has ended, changes nothing. *)
Definition step (g : Group) (ch : Choice) : Group :=
  match ch with
  | Main =>
      match pending g with
      | [] => g
      | c :: rest =>
          mkGroup c rest (units g ++ [mkUnit c UStart]) (groupErr g) (world g)
      end
  | Go k =>
      match units g !! k with
      | Some u => unitStep k u g
      | None => g
      end
  end.

Definition startGroup (containers : list Container) (w : World) : Group :=
  mkGroup zeroContainer containers [] None w.

(** A goroutine needs at most this many steps from [UStart]. *)
Definition unitFuel : nat := 9.

(** [eg.Wait()]: whatever the scheduler left undone is run to the end,
    the loop first and then each goroutine. *)
Definition drain (n : nat) : list Choice :=
  replicate n Main ++ flat_map (fun k => replicate unitFuel (Go k)) (seq 0 n).

Definition runGroup (schedule : list Choice) (containers : list Container) (w : World)
  : Group :=
  foldl step (startGroup containers w) (schedule ++ drain (length containers)).

Definition removeContainers (containers : list Container) (w : World)
  : World * option error :=
  let g := runGroup (containerSchedule (trace w) containers) containers w in
  (world g, groupErr g).

(** The function literal of lines 111-125 run without interruption, by a
    goroutine whose [toDelete] is one container and which finds another
    in [container] at line 113. *)
Definition runUnit (toDelete container : Container) (w : World) : World * option error :=
  let eventName := eventNameOf toDelete in
  match stopContainers [container] w with
  | (w1, Some err) => (w1, Some err)
  | (w1, None) =>
      let w2 := emit (RemovingEvent eventName) w1 in
      match call (AContainerRemove (ID toDelete) true)
                 (ContainerRemove (ID toDelete) true) w2 with
      | (w3, Some err) =>
          (emit (ErrorMessageEvent eventName "Error while Removing") w3, Some err)
      | (w3, None) => (emit (RemovedEvent eventName) w3, None)
      end
  end.

(** *** Helpers declared outside [down.go] *)

(** Modelled from the spec: [isService] is declared outside [down.go].
    The spec has the Resource Set split by a predicate over the service
    name: the records whose service-name label is the given name. *)
Definition isService (name : string) (c : Container) : bool :=
  bool_decide (label c serviceLabel = name).

(** Modelled from the spec: [ensureNetworkDown] is declared outside
    [down.go]. The spec has it request the removal of the network by
    identifier and take the runtime's "not found" answer as success. *)
Definition ensureNetworkDown (networkID networkName : string) (w : World)
  : World * option error :=
  match call (ANetworkRemove networkID) (NetworkRemove networkID) w with
  | (w', Some err) => if IsNotFound err then (w', None) else (w', Some err)
  | (w', None) => (w', None)
  end.

(** Modelled from the spec: [InReverseDependencyOrder] is declared outside
    [down.go]. The spec has it call the action once per service, one
    service after the other in reverse dependency order, stop at the
    first error an action returns and hand that error back; a cyclic
    graph is an error before any action. [S] is what the action's
    closure captures and assigns. *)
Fixpoint visit {S} (fn : ServiceConfig -> S -> World -> World * (S * option error))
  (order : list ServiceConfig) (captured : S) (w : World) : World * (S * option error) :=
  match order with
  | [] => (w, (captured, None))
  | service :: rest =>
      match fn service captured w with
      | (w', (captured', Some err)) => (w', (captured', Some err))
      | (w', (captured', None)) => visit fn rest captured' w'
      end
  end.

(** Modelled from the spec: [InReverseDependencyOrder], by [visit] over
    [reverseDependencyOrder]. *)
Definition InReverseDependencyOrder {S} (project : Project)
  (fn : ServiceConfig -> S -> World -> World * (S * option error))
  (captured : S) (w : World) : World * (S * option error) :=
  match reverseDependencyOrder project with
  | inl err => (w, (captured, Some err))
  | inr order => visit fn order captured w
  end.

(** *** [Down] (lines 35-90) *)

(** The function literal of lines 55-60; it assigns the captured
    [containers]. *)
Definition removeService (service : ServiceConfig) (containers : Containers) (w : World)
  : World * (Containers * option error) :=
  let '(serviceContainers, others) := split containers (isService (SvcName service)) in
  let '(w', err) := removeContainers serviceContainers w in
  (w', (others, err)).

(** Lines 81-89: one goroutine per network, each a single request; they
    complete in the order the scheduler picks. *)
Fixpoint networkGroup (networks : list Network) (recorded : option error) (w : World)
  : World * option error :=
  match networks with
  | [] => (w, recorded)
  | n :: rest =>
      let '(w', r) := ensureNetworkDown (NetID n) (NetName n) w in
      networkGroup rest (firstError recorded r) w'
  end.

Definition removeNetworks (networks : list Network) (w : World) : World * option error :=
  networkGroup (pickOrder (networkSchedule (trace w) networks) networks) None w.

(** Lines 46-90, with [options.Project] set. *)
Definition downProject (projectName : string) (project : Project) (removeOrphans : bool)
  : M unit :=
  bind (request (AContainerList (projectFilter (Name project)))
                (ContainerList (projectFilter (Name project))))
  (fun containers =>
  bind (fun w =>
          match InReverseDependencyOrder project removeService containers w with
          | (w', (_, Some err)) => (w', Fail err)
          | (w', (others, None)) => (w', Ok others)
          end)
  (fun containers =>
  bind (if removeOrphans && bool_decide (0 < length containers)
        then returning (removeContainers containers)
        else ret tt)
  (fun _ =>
  bind (request (ANetworkList (projectFilter projectName))
                (NetworkList (projectFilter projectName)))
  (fun networks =>
     returning (removeNetworks networks))))).

(** Lines 38-44: the project of the options, or else the reconstructed
    one. *)
Definition resolveProject (projectName : string) (options : DownOptions) : M Project :=
  match OptProject options with
  | None => projectFromContainerLabels projectName
  | Some project => ret project
  end.

Definition Down (projectName : string) (options : DownOptions) : M unit :=
  bind (resolveProject projectName options)
  (fun project => downProject projectName project (RemoveOrphans options)).

End Teardown.

(** ** Reading traces; invariants and measures of the goroutine machine *)

(** The resource an event is about. *)
Definition eventId (e : Event) : string :=
  match e with
  | StoppingEvent id | StoppedEvent id | RemovingEvent id | RemovedEvent id => id
  | ErrorMessageEvent id _ => id
  end.

(** The events of a trace about one resource, in order. *)
Definition eventsFor (id : string) (actions : list Action) : list Event :=
  omap (fun a => match a with
                 | AEvent e => if bool_decide (eventId e = id) then Some e else None
                 | _ => None
                 end) actions.

(** The listing requests of a trace. *)
Definition isListing (a : Action) : bool :=
  match a with
  | AContainerList _ | ANetworkList _ => true
  | _ => false
  end.

Section Observations.
Context {RT : Type} `{!ApiClient RT} `{!Platform}.

(** The action is an event about container [c], or a request to stop it
    or to remove it by force. *)
Definition concerns (c : Container) (a : Action) : Prop :=
  match a with
  | AEvent e => eventId e = eventNameOf c
  | AContainerStop id => id = ID c
  | AContainerRemove id force => id = ID c ∧ force = true
  | _ => False
  end.

Definition withinBatch (batch : list Container) (a : Action) : Prop :=
  ∃ c, c ∈ batch ∧ concerns c a.

Definition stopWithin (batch : list Container) (s : StopPc) : Prop :=
  match s with
  | SLoop rest => rest ⊆ batch
  | SCall toStop rest | SStopped toStop rest => toStop ∈ batch ∧ rest ⊆ batch
  | SFailed toStop _ => toStop ∈ batch
  | SReturn _ => True
  end.

Definition unitWithin (batch : list Container) (u : Unit) : Prop :=
  toDelete u ∈ batch ∧
  match pc u with
  | UStopping s => stopWithin batch s
  | _ => True
  end.

(** Every container a running group holds comes from its batch. *)
Definition groupWithin (batch : list Container) (g : @Group RT) : Prop :=
  pending g ⊆ batch ∧
  (units g ≠ [] → container g ∈ batch) ∧
  Forall (unitWithin batch) (units g).

(** From [w] to [w'] the trace grew, by actions that all satisfy [P]. *)
Definition adds (P : Action → Prop) (w w' : @World RT) : Prop :=
  ∃ added, trace w' = trace w ++ added ∧ Forall P added.

(** The container belongs to a service the project declares. *)
Definition declared (project : Project) (c : Container) : Prop :=
  ∃ s, s ∈ Services project ∧ isService (SvcName s) c = true.

(** What [Down] may do after its container listing, started in [w] for
    [project]: act on a listed container (when orphans are kept: one of
    a declared service), list the networks of [projectName], or remove a
    network of such a listing. *)
Definition downAction (projectName : string) (project : Project)
    (removeOrphans : bool) (w : @World RT) (a : Action) : Prop :=
  (∃ containers c,
      (ContainerList (projectFilter (Name project)) (rt w)).2 = inr containers ∧
      c ∈ containers ∧ concerns c a ∧
      (removeOrphans = false → declared project c)) ∨
  a = ANetworkList (projectFilter projectName) ∨
  (∃ rt0 networks n,
      (NetworkList (projectFilter projectName) rt0).2 = inr networks ∧
      n ∈ networks ∧ a = ANetworkRemove (NetID n)).

(** Steps [stopContainers] still has to take. *)
Definition stopMeasure (s : StopPc) : nat :=
  match s with
  | SLoop rest => 3 * length rest + 1
  | SCall _ rest => 3 * length rest + 3
  | SStopped _ rest => 3 * length rest + 2
  | SFailed _ _ => 1
  | SReturn _ => 0
  end.

(** Steps a goroutine still has to take, at most. *)
Definition unitMeasure (p : UnitPc) : nat :=
  match p with
  | UStart => 9
  | UStopping s => stopMeasure s + 4
  | URemove => 3
  | URemoveFailed _ | URemoved => 2
  | UReturn _ => 1
  | UDone => 0
  end.

(** The loop and the goroutines account for the whole batch, and no
    goroutine needs more than [unitFuel] steps. *)
Definition groupBounded (batch : list Container) (g : @Group RT) : Prop :=
  map toDelete (units g) ++ pending g = batch ∧
  Forall (fun u => unitMeasure (pc u) ≤ unitFuel) (units g).

(** A batch of one container: the schedule in which nothing is delayed,
    and the states the group passes through under it. *)
Definition soloSchedule : list Choice := Main :: replicate unitFuel (Go 0).

Definition solo (c : Container) (w : @World RT) (i : nat) : @Group RT :=
  foldl step (startGroup [c] w) (take i soloSchedule).

End Observations.

(** ** What one goroutine of [removeContainers] leaves in the trace *)

(** How the function literal of lines 111-125 ended. *)
Inductive UnitOutcome :=
| StopFailure      (* line 115: [stopContainers] returned an error *)
| RemoveFailure    (* line 121 *)
| Success.         (* line 124 *)

#[global] Instance UnitOutcome_eq_dec : EqDecision UnitOutcome.
Proof. solve_decision. Defined.

(** Several sequences merged into one, each keeping its order: the merged
    sequence grows at its end by what one of the sequences grows by. *)
Inductive Interleaved {A : Type} : list (list A) → list A → Prop :=
| Interleaved_empty (logs : list (list A)) :
    Forall (fun log => log = []) logs → Interleaved logs []
| Interleaved_snoc (logs : list (list A)) (k : nat) (log : list A) (a : A) (t : list A) :
    logs !! k = Some log →
    Interleaved logs t →
    Interleaved (<[k := log ++ [a]]> logs) (t ++ [a]).

Section UnitLogs.
Context {RT : Type} `{!ApiClient RT} `{!Platform}.

(** Lines 96, 97, 102: a container stopped. *)
Definition stoppedActions (c : Container) : list Action :=
  [AEvent (StoppingEvent (eventNameOf c));
   AContainerStop (ID c);
   AEvent (StoppedEvent (eventNameOf c))].

(** Lines 96, 97, 99: a stop refused. *)
Definition stopFailedActions (c : Container) : list Action :=
  [AEvent (StoppingEvent (eventNameOf c));
   AContainerStop (ID c);
   AEvent (ErrorMessageEvent (eventNameOf c) "Error while Stopping")].

(** Lines 117, 118, 123: a container removed. *)
Definition removedActions (c : Container) : list Action :=
  [AEvent (RemovingEvent (eventNameOf c));
   AContainerRemove (ID c) true;
   AEvent (RemovedEvent (eventNameOf c))].

(** Lines 117, 118, 120: a removal refused. *)
Definition removeFailedActions (c : Container) : list Action :=
  [AEvent (RemovingEvent (eventNameOf c));
   AContainerRemove (ID c) true;
   AEvent (ErrorMessageEvent (eventNameOf c) "Error while Removing")].

(** Everything a goroutine does from start to return, when its [toDelete]
    is one container and it found [read] in the range variable. *)
Definition unitLog (toDelete read : Container) (o : UnitOutcome) : list Action :=
  match o with
  | StopFailure => stopFailedActions read
  | RemoveFailure => stoppedActions read ++ removeFailedActions toDelete
  | Success => stoppedActions read ++ removedActions toDelete
  end.

(** The complete logs of the goroutines of a batch: goroutine [k] has the
    [k]-th container as its [toDelete]; [runs] tells, for each, what it
    read from the range variable and how it ended. *)
Definition batchLogs (batch : list Container) (runs : list (Container * UnitOutcome))
  : list (list Action) :=
  zip_with (fun c run => unitLog c run.1 run.2) batch runs.

(** What a goroutine at program counter [p] has done so far; [o] tells
    how it ended once it has returned. *)
Definition logOf (toDelete read : Container) (p : UnitPc) (o : UnitOutcome) : list Action :=
  match p with
  | UStart => []
  | UStopping (SLoop (_ :: _)) => []
  | UStopping (SCall _ _) => take 1 (stoppedActions read)
  | UStopping (SFailed _ _) | UStopping (SStopped _ _) => take 2 (stoppedActions read)
  | UStopping (SLoop []) | UStopping (SReturn None) => stoppedActions read
  | UStopping (SReturn (Some _)) => stopFailedActions read
  | URemove => stoppedActions read ++ take 1 (removedActions toDelete)
  | URemoveFailed _ | URemoved => stoppedActions read ++ take 2 (removedActions toDelete)
  | UReturn (Some _) => unitLog toDelete read RemoveFailure
  | UReturn None => unitLog toDelete read Success
  | UDone => unitLog toDelete read o
  end.

(** The container a goroutine is stopping is the one it read. *)
Definition pcReads (read : Container) (p : UnitPc) : Prop :=
  match p with
  | UStopping (SLoop rest) => rest = [read] ∨ rest = []
  | UStopping (SCall c rest) | UStopping (SStopped c rest) => c = read ∧ rest = []
  | UStopping (SFailed c _) => c = read
  | _ => True
  end.

(** The logs of the goroutines of a group, by what each has read and how
    it ended. *)
Definition groupLogs (g : @Group RT) (ghosts : list (Container * UnitOutcome))
  : list (list Action) :=
  zip_with (fun u gh => logOf (toDelete u) gh.1 (pc u) gh.2) (units g) ghosts.

(** A running group that started in a world with trace [before]: its
    trace is [before] followed by the merge of the goroutines' logs; each
    goroutine read a container at or after its own position in the batch;
    the group's error is set exactly when a goroutine has returned one. *)
Definition groupLogged (batch : list Container) (before : list Action) (g : @Group RT)
    (ghosts : list (Container * UnitOutcome)) : Prop :=
  length ghosts = length (units g) ∧
  map toDelete (units g) ++ pending g = batch ∧
  (∀ u, last (units g) = Some u → container g = toDelete u) ∧
  (∃ added, trace (world g) = before ++ added ∧ Interleaved (groupLogs g ghosts) added) ∧
  (∀ k u gh, units g !! k = Some u → ghosts !! k = Some gh →
             gh.1 ∈ drop k batch ∧ pcReads gh.1 (pc u) ∧
             (pc u = UDone → gh.2 ≠ Success → groupErr g ≠ None)) ∧
  (groupErr g ≠ None →
   ∃ k u gh, units g !! k = Some u ∧ ghosts !! k = Some gh ∧
             pc u = UDone ∧ gh.2 ≠ Success).

End UnitLogs.



Definition isErrorEvent (a : Action) : bool :=
  match a with
  | AEvent (ErrorMessageEvent _ _) => true
  | _ => false
  end.

(** Actions on containers, as against listings and actions on networks. *)
Definition isContainerAction (a : Action) : bool :=
  match a with
  | AEvent _ | AContainerStop _ | AContainerRemove _ _ => true
  | _ => false
  end.

(** ** A simulated runtime, for running the teardown on concrete inputs *)

Module Sim.

(** The labels docker compose stamps on what it creates. *)
Definition composeProject : string := "com.docker.compose.project".
Definition composeService : string := "com.docker.compose.service".
Definition composeConfigFiles : string := "com.docker.compose.project.config_files".
Definition composeWorkingDir : string := "com.docker.compose.project.working_dir".

(** The runtime holds containers and networks; stopping or removing
    fails for the identifiers listed. *)
Record Runtime := mkRuntime {
  liveContainers : list Container;
  liveNetworks : list Network;
  stopFails : list string;
  removeFails : list string
}.

Definition hasProject (labels : gmap string string) (f : Filter) : Prop :=
  match f with
  | projectFilter name => labels !! composeProject = Some name
  end.

#[global] Instance hasProject_dec labels f : Decision (hasProject labels f).
Proof. destruct f; simpl; apply _. Defined.

Definition api : ApiClient Runtime := {|
  ContainerList f r :=
    (r, inr (filter (fun c => hasProject (Labels c) f) (liveContainers r)));
  ContainerStop id r :=
    (r, if bool_decide (id ∈ stopFails r) then Some ("cannot stop " +:+ id) else None);
  ContainerRemove id force r :=
    if bool_decide (id ∈ removeFails r) then (r, Some ("cannot remove " +:+ id))
    else (mkRuntime (filter (fun c => ID c ≠ id) (liveContainers r))
                    (liveNetworks r) (stopFails r) (removeFails r), None);
  NetworkList f r :=
    (r, inr (filter (fun n => hasProject (NetLabels n) f) (liveNetworks r)));
  NetworkRemove id r :=
    (mkRuntime (liveContainers r) (filter (fun n => NetID n ≠ id) (liveNetworks r))
               (stopFails r) (removeFails r), None)
|}.

(** The canonical name: the first name without its leading slash. *)
Definition canonicalName (c : Container) : string :=
  match Names c with
  | String _ name :: _ => name
  | _ => ""
  end.

Definition platform : Platform := {|
  serviceLabel := composeService;
  configFilesLabel := composeConfigFiles;
  workingDirLabel := composeWorkingDir;
  projectLabel := composeProject;
  getCanonicalContainerName := canonicalName;
  os_Environ := [];
  filepath_Abs wd := inr wd;
  ProjectFromOptions o := inl ("no such file: " +:+ default "" (head (ConfigPaths o)));
  IsNotFound e := bool_decide (e = "not found")
|}.

(** The loop ends before any goroutine runs; then each goroutine runs to
    its end, in starting order. *)
Definition loopFirst : Scheduler := {|
  containerSchedule _ _ := [];
  networkSchedule _ _ := []
|}.

(** The loop and goroutine 0 take turns: the goroutine reads the range
    variable after the second assignment and before the third. *)
Definition lateRead : Scheduler := {|
  containerSchedule _ _ := [Main; Main; Go 0; Main];
  networkSchedule _ _ := []
|}.

(** Every goroutine runs to its end before the loop moves on. *)
Definition eager : Scheduler := {|
  containerSchedule _ cs :=
    flat_map (fun k => Main :: replicate unitFuel (Go k)) (seq 0 (length cs));
  networkSchedule _ _ := []
|}.

Definition mk (id name service files : string) : Container :=
  mkContainer id ["/" +:+ name]
    (<[composeProject := "shop"]>
     (<[composeService := service]>
      (<[composeConfigFiles := files]> ∅))).

Definition web1 : Container := mk "id-web-1" "shop_web_1" "web" "-".
Definition web2 : Container := mk "id-web-2" "shop_web_2" "web" "-".
Definition web3 : Container := mk "id-web-3" "shop_web_3" "web" "-".
Definition db1 : Container := mk "id-db-1" "shop_db_1" "db" "-".
Definition cache1 : Container := mk "id-cache-1" "shop_cache_1" "cache" "-".

Definition shopNet : Network :=
  mkNetwork "id-net" "shop_default" (<[composeProject := "shop"]> ∅).

Definition storeNet : Network :=
  mkNetwork "id-store-net" "store_default" (<[composeProject := "store"]> ∅).

Definition shop : Project :=
  mkProject "shop" [mkService "web" ["db"]; mkService "db" []].

(** A host where the compose file is on disk: the project is loaded from
    it whatever the containers say, and it declares [web] and [db]. *)
Definition onDisk : Platform := {|
  serviceLabel := composeService;
  configFilesLabel := composeConfigFiles;
  workingDirLabel := composeWorkingDir;
  projectLabel := composeProject;
  getCanonicalContainerName := canonicalName;
  os_Environ := [];
  filepath_Abs wd := inr wd;
  ProjectFromOptions _ := inr shop;
  IsNotFound e := bool_decide (e = "not found")
|}.

(** Containers started from a compose file, not from standard input. *)
Definition fileWeb1 : Container :=
  mk "id-web-1" "shop_web_1" "web" "/srv/shop/compose.yaml,override/dev.yaml".
Definition fileDb1 : Container :=
  mk "id-db-1" "shop_db_1" "db" "/srv/shop/compose.yaml,override/dev.yaml".
Definition fileCache1 : Container :=
  mk "id-cache-1" "shop_cache_1" "cache" "/srv/shop/compose.yaml,override/dev.yaml".

(** A container that carries no label at all. *)
Definition bare : Container := mkContainer "id-bare" ["/bare"] ∅.

Definition start (r : Runtime) : World := mkWorld r [].

End Sim.

(** * Properties *)

(** ** Resource Set *)

Lemma split_filter (containers : Containers) (predicate : Container -> bool) :
  split containers predicate =
  (filter (fun c => Is_true (predicate c)) containers,
   filter (fun c => ¬ Is_true (predicate c)) containers).
Proof.
  induction containers as [|c rest IH]; [reflexivity|].
  cbn [split]. rewrite IH.
  rewrite !filter_cons.
  destruct (predicate c) eqn:Hp.
  - rewrite decide_True by exact I. rewrite decide_False by (intros H; apply H; exact I).
    reflexivity.
  - rewrite decide_False by (intros []). rewrite decide_True by (intros []).
    reflexivity.
Qed.

Lemma split_matched_elem containers predicate c :
  c ∈ (split containers predicate).1 ↔ c ∈ containers ∧ predicate c = true.
Proof.
  rewrite split_filter. cbn [fst]. rewrite list_elem_of_filter.
  rewrite Is_true_true. tauto.
Qed.

Lemma split_others_elem containers predicate c :
  c ∈ (split containers predicate).2 ↔ c ∈ containers ∧ predicate c = false.
Proof.
  rewrite split_filter. cbn [snd]. rewrite list_elem_of_filter.
  rewrite Is_true_false. tauto.
Qed.

Lemma split_interleaves containers predicate :
  Permutation ((split containers predicate).1 ++ (split containers predicate).2) containers.
Proof.
  induction containers as [|c rest IH]; [reflexivity|].
  cbn [split]. destruct (split rest predicate) as [matched others].
  cbn [fst snd] in IH. destruct (predicate c); cbn [fst snd].
  - cbn. by f_equiv.
  - rewrite <- Permutation_middle. by f_equiv.
Qed.

(** C6. [split] is a function of its two arguments returning two new
    sequences (it has no other effect). The pair partitions the input: the
    first component holds exactly the records satisfying the predicate,
    the second exactly those that do not, so each record of the input is
    in exactly one of them and none is in both; together they are a
    rearrangement of the input (nothing lost, nothing duplicated); each
    keeps the relative order of the input. The empty input gives two empty
    outputs, and a predicate that matches nothing gives (empty, input). *)
Theorem split_partitions (R : Containers) (p : Container -> bool) :
  (∀ c, c ∈ (split R p).1 ↔ c ∈ R ∧ p c = true) ∧
  (∀ c, c ∈ (split R p).2 ↔ c ∈ R ∧ p c = false) ∧
  (∀ c, c ∈ R →
        (c ∈ (split R p).1 ∧ c ∉ (split R p).2) ∨
        (c ∈ (split R p).2 ∧ c ∉ (split R p).1)) ∧
  (∀ c, ¬ (c ∈ (split R p).1 ∧ c ∈ (split R p).2)) ∧
  Permutation ((split R p).1 ++ (split R p).2) R ∧
  length (split R p).1 + length (split R p).2 = length R ∧
  sublist (split R p).1 R ∧
  sublist (split R p).2 R ∧
  split [] p = ([], []) ∧
  ((∀ c, c ∈ R → p c = false) → split R p = ([], R)).
Proof.
  assert (Hboth : ∀ c, ¬ (c ∈ (split R p).1 ∧ c ∈ (split R p).2)).
  { intros c [H1 H2]. apply split_matched_elem in H1 as [_ H1].
    apply split_others_elem in H2 as [_ H2]. congruence. }
  split_and!.
  - apply split_matched_elem.
  - apply split_others_elem.
  - intros c Hc. destruct (p c) eqn:Hp.
    + left. split; [by apply split_matched_elem|].
      intros H. apply split_others_elem in H as [_ H]. congruence.
    + right. split; [by apply split_others_elem|].
      intros H. apply split_matched_elem in H as [_ H]. congruence.
  - exact Hboth.
  - apply split_interleaves.
  - rewrite <- length_app. apply Permutation_length, split_interleaves.
  - rewrite split_filter. apply sublist_filter.
  - rewrite split_filter. apply sublist_filter.
  - reflexivity.
  - intros Hnone. clear Hboth. induction R as [|c rest IH]; [reflexivity|].
    cbn [split]. rewrite IH.
    + rewrite Hnone by apply list_elem_of_here. reflexivity.
    + intros c' Hc'. apply Hnone. by apply list_elem_of_further.
Qed.

(** ** Go library functions *)

Lemma strings_Split_nonempty (s : string) (sep : ascii) :
  0 < length (strings_Split s sep).
Proof.
  induction s as [|c rest IH]; cbn [strings_Split]; [cbn; lia|].
  case_bool_decide; [cbn; lia|].
  destruct (strings_Split rest sep); cbn; lia.
Qed.

Lemma foldl_append_map {A B} (f : A → B) (l : list A) (acc : list B) :
  foldl (fun acc x => acc ++ [f x]) acc l = acc ++ map f l.
Proof.
  revert acc. induction l as [|x l IH]; intros acc; cbn [foldl map].
  - by rewrite app_nil_r.
  - rewrite IH. by rewrite <- app_assoc.
Qed.

Lemma pickOrder_nil {A} (picks : list nat) : pickOrder picks ([] : list A) = [].
Proof. induction picks as [|k picks IH]; [reflexivity|]. cbn. exact IH. Qed.

Lemma pickOrder_elem {A} (picks : list nat) (l : list A) (x : A) :
  x ∈ pickOrder picks l → x ∈ l.
Proof.
  revert l. induction picks as [|k picks IH]; intros l; cbn [pickOrder]; [done|].
  destruct (l !! k) as [y|] eqn:Hk; [|apply IH].
  intros [->|Hin]%elem_of_cons.
  - by eapply list_elem_of_lookup_2.
  - apply IH in Hin. by eapply list_elem_of_delete_inv.
Qed.

(** ** Dependency order *)

Lemma reverseOrder_visits (fuel : nat) (remaining order : list ServiceConfig) :
  reverseOrder fuel remaining = inr order → ∀ s, s ∈ order → s ∈ remaining.
Proof.
  revert remaining order. induction fuel as [|fuel IH]; intros remaining order.
  - destruct remaining; cbn; [|discriminate].
    intros [= <-] s Hs. by apply not_elem_of_nil in Hs.
  - destruct remaining as [|s0 rest]; cbn [reverseOrder].
    { intros [= <-] s Hs. by apply not_elem_of_nil in Hs. }
    set (remaining := s0 :: rest).
    destruct (filter (λ s, Is_true (isLeaf remaining s)) remaining) as [|l ls] eqn:Hleaves;
      [discriminate|].
    destruct (reverseOrder fuel _) as [e|later] eqn:Hrec; [discriminate|].
    intros [= <-] s Hs.
    change (s ∈ (l :: ls) ++ later) in Hs.
    apply elem_of_app in Hs as [Hs|Hs].
    + rewrite <- Hleaves in Hs. by apply list_elem_of_filter in Hs as [_ Hs].
    + eapply IH in Hs; [|exact Hrec]. by apply list_elem_of_filter in Hs as [_ Hs].
Qed.

Lemma reverseDependencyOrder_visits (project : Project) (order : list ServiceConfig) :
  reverseDependencyOrder project = inr order → ∀ s, s ∈ order → s ∈ Services project.
Proof. apply reverseOrder_visits. Qed.

(** ** Go library functions, continued *)




(** ** Orders *)

Lemma pickOrder_Permutation {A} (picks : list nat) (l : list A) : pickOrder picks l ≡ₚ l.
Proof.
  revert l. induction picks as [|k picks IH]; intros l; cbn [pickOrder]; [done|].
  destruct (l !! k) as [x|] eqn:Hk; [|apply IH].
  rewrite IH. symmetry. by apply delete_Permutation.
Qed.

Lemma reverseOrder_covers (fuel : nat) (remaining order : list ServiceConfig) :
  reverseOrder fuel remaining = inr order → ∀ s, s ∈ remaining → s ∈ order.
Proof.
  revert remaining order. induction fuel as [|fuel IH]; intros remaining order.
  - destruct remaining; cbn; [|discriminate].
    intros [= <-] s Hs. by apply not_elem_of_nil in Hs.
  - destruct remaining as [|s0 rest]; cbn [reverseOrder].
    { intros [= <-] s Hs. by apply not_elem_of_nil in Hs. }
    set (remaining := s0 :: rest).
    destruct (filter (λ s, Is_true (isLeaf remaining s)) remaining) as [|l ls] eqn:Hleaves;
      [discriminate|].
    destruct (reverseOrder fuel _) as [e|later] eqn:Hrec; [discriminate|].
    intros [= <-] s Hs.
    change (s ∈ (l :: ls) ++ later). apply elem_of_app.
    destruct (decide (Is_true (isLeaf remaining s))) as [Hleaf|Hleaf].
    + left. rewrite <- Hleaves. by apply list_elem_of_filter.
    + right. eapply IH; [exact Hrec|]. by apply list_elem_of_filter.
Qed.

(** ** Project Reconstructor *)

Section Reconstruction.
Context {RT : Type} `{!ApiClient RT} `{!Platform}.

(** The option functions leave the config paths alone. *)
Lemma loadProjectOptionsFromLabels_paths (c : Container) (options : ProjectOptions) :
  loadProjectOptionsFromLabels c = Ok options →
  ConfigPaths options =
    map filepath_Base (strings_Split (label c configFilesLabel) ","%char).
Proof.
  unfold loadProjectOptionsFromLabels, NewProjectOptions.
  rewrite foldl_append_map. cbn [app applyOptions WithOsEnv WithName].
  unfold WithWorkingDirectory. case_bool_decide.
  - intros [= <-]. reflexivity.
  - destruct (filepath_Abs _); [discriminate|]. intros [= <-]. reflexivity.
Qed.

Lemma loadProjectOptionsFromLabels_no_panic (c : Container) (msg : string) :
  loadProjectOptionsFromLabels c ≠ Panic msg.
Proof.
  unfold loadProjectOptionsFromLabels, NewProjectOptions.
  cbn [applyOptions WithOsEnv WithName].
  unfold WithWorkingDirectory. case_bool_decide; [discriminate|].
  destruct (filepath_Abs _); discriminate.
Qed.

(** C10. For every container record, whatever its config-files label
    (absent and empty included), [loadProjectOptionsFromLabels] returns
    options unless the container has a non-empty working-directory label
    that cannot be made absolute, in which case it returns that error and
    the caller returns before reading the paths. The options it returns
    have as [ConfigPaths] the base names of the comma-separated segments
    of the label, of which there is at least one; for an absent or empty
    label that is the single path ["."]. Hence the read of
    [ConfigPaths[0]] in [projectFromContainerLabels] is always in bounds:
    that function never panics. *)
Theorem ConfigPaths_never_empty (c : Container) :
  match (if bool_decide (label c workingDirLabel = "") then inr ""
         else filepath_Abs (label c workingDirLabel)) with
  | inl e => loadProjectOptionsFromLabels c = Fail e
  | inr dir =>
      ∃ options,
        loadProjectOptionsFromLabels c = Ok options ∧
        WorkingDir options = dir ∧
        ConfigPaths options =
          map filepath_Base (strings_Split (label c configFilesLabel) ","%char) ∧
        0 < length (ConfigPaths options) ∧
        (label c configFilesLabel = "" → ConfigPaths options = ["."])
  end ∧
  ∀ (projectName : string) (w : @World RT) (msg : string),
    (projectFromContainerLabels projectName w).2 ≠ Panic msg.
Proof.
  split.
  - unfold loadProjectOptionsFromLabels, NewProjectOptions.
    rewrite foldl_append_map. cbn [app applyOptions WithOsEnv WithName].
    unfold WithWorkingDirectory.
    assert (Hpos : 0 < length (map filepath_Base
                                 (strings_Split (label c configFilesLabel) ","%char))).
    { rewrite length_map. apply strings_Split_nonempty. }
    case_bool_decide.
    + eexists. split_and!; try reflexivity; [exact Hpos|]. cbn. by intros ->.
    + destruct (filepath_Abs _) as [e|dir]; [done|].
      eexists. split_and!; try reflexivity; [exact Hpos|]. cbn. by intros ->.
  - intros projectName w msg. unfold projectFromContainerLabels, bind, request.
    destruct (call _ _ w) as [w' [e|containers]]; [discriminate|].
    destruct containers as [|first rest]; [discriminate|].
    unfold pure_result.
    destruct (loadProjectOptionsFromLabels first) as [options|e|msg'] eqn:Hload;
      [|discriminate|by apply loadProjectOptionsFromLabels_no_panic in Hload].
    pose proof (loadProjectOptionsFromLabels_paths _ _ Hload) as Hpaths.
    pose proof (strings_Split_nonempty (label first configFilesLabel) ","%char) as Hpos.
    destruct (ConfigPaths options) as [|path0 paths].
    { apply (f_equal length) in Hpaths. rewrite length_map in Hpaths. cbn in Hpaths. lia. }
    case_bool_decide; [discriminate|].
    destruct (ProjectFromOptions options); discriminate.
Qed.

(** C2, as amended. Under the sentinel (the first recovered config path
    is ["-"]) the reconstructed project carries the requested name and
    one service per listed container, in listing order, each named by its
    container's service-name label and without dependency edges: a name
    shared by several containers is repeated as often. *)
Theorem sentinel_one_service_per_container
    (projectName : string) (w w' : @World RT)
    (first : Container) (rest : list Container)
    (options : ProjectOptions) (paths : list string) :
  call (AContainerList (projectFilter projectName))
       (ContainerList (projectFilter projectName)) w = (w', inr (first :: rest)) →
  loadProjectOptionsFromLabels first = Ok options →
  ConfigPaths options = "-" :: paths →
  projectFromContainerLabels projectName w =
    (w', Ok (mkProject projectName
               (map (fun c => mkService (label c serviceLabel) []) (first :: rest)))).
Proof.
  intros Hlist Hload Hpaths.
  unfold projectFromContainerLabels, bind, request. rewrite Hlist.
  unfold pure_result. rewrite Hload, Hpaths.
  rewrite bool_decide_eq_true_2 by reflexivity.
  unfold ret. rewrite foldl_append_map. reflexivity.
Qed.

Lemma projectFromContainerLabels_world (projectName : string) (w : @World RT) :
  (projectFromContainerLabels projectName w).1 =
  (call (AContainerList (projectFilter projectName))
        (ContainerList (projectFilter projectName)) w).1.
Proof.
  unfold projectFromContainerLabels, bind, request.
  destruct (call _ _ w) as [w' [e|containers]]; [done|].
  destruct containers as [|first rest]; [done|].
  unfold pure_result. destruct (loadProjectOptionsFromLabels first) as [options|e|msg];
    [|done|done].
  destruct (ConfigPaths options) as [|path0 paths]; [done|].
  case_bool_decide; [done|]. by destruct (ProjectFromOptions options).
Qed.


End Reconstruction.

(** ** The goroutine machine *)

Section GroupFacts.
Context {RT : Type} `{!ApiClient RT} `{!Platform}.

Lemma call_trace {A} (a : Action) (f : RT → RT * A) (w : @World RT) :
  trace (call a f w).1 = trace w ++ [a].
Proof. unfold call. destruct (f (rt w)). reflexivity. Qed.

(** [stopContainers] run to its end is the machine run to its end. *)
Lemma stopStep_refines (containers : list Container) (w : @World RT) :
  ∃ n, Nat.iter n (fun sw => stopStep sw.1 sw.2) (SLoop containers, w) =
       (SReturn (stopContainers containers w).2, (stopContainers containers w).1).
Proof.
  revert w. induction containers as [|toStop rest IH]; intros w.
  - exists 1. reflexivity.
  - cbn [stopContainers].
    destruct (call (AContainerStop (ID toStop)) (ContainerStop (ID toStop))
                   (emit (StoppingEvent (eventNameOf toStop)) w))
      as [w2 [err|]] eqn:Hcall.
    + exists 3. rewrite !Nat.iter_succ_r. cbn [Nat.iter stopStep fst snd].
      rewrite Hcall. reflexivity.
    + destruct (IH (emit (StoppedEvent (eventNameOf toStop)) w2)) as [n Hn].
      exists (n + 3). rewrite Nat.iter_add, !Nat.iter_succ_r.
      cbn [Nat.iter stopStep fst snd]. rewrite Hcall. exact Hn.
Qed.

(** What one step of a goroutine leaves alone. *)
Lemma unitStep_frame (k : nat) (u : Unit) (g : @Group RT) :
  units g !! k = Some u →
  ∃ u', units (unitStep k u g) = <[k := u']> (units g) ∧
        toDelete u' = toDelete u ∧
        container (unitStep k u g) = container g ∧
        pending (unitStep k u g) = pending g ∧
        (unitMeasure (pc u') < unitMeasure (pc u) ∨ (pc u = UDone ∧ u' = u)).
Proof.
  intros Hk. destruct u as [td p]. unfold unitStep. cbn [toDelete pc].
  destruct p as [|s| |err| |r|].
  - eexists. split_and!; try reflexivity. left. cbn. lia.
  - destruct s as [[|c rest]|c rest|c e|c rest|[e|]]; cbn [stopStep];
      try (destruct (call _ _ _) as [w' [e'|]]);
      (eexists; split_and!; try reflexivity; left; cbn; lia).
  - destruct (call _ _ _) as [w' [e'|]];
      (eexists; split_and!; try reflexivity; left; cbn; lia).
  - eexists; split_and!; try reflexivity; left; cbn; lia.
  - eexists; split_and!; try reflexivity; left; cbn; lia.
  - eexists; split_and!; try reflexivity; left; cbn; lia.
  - exists (mkUnit td UDone). split_and!; try reflexivity; [|by right].
    symmetry. by apply list_insert_id.
Qed.

(** One step of a goroutine acts on its batch only. *)
Lemma unitStep_within (batch : list Container) (k : nat) (u : Unit) (g : @Group RT) :
  groupWithin batch g →
  units g !! k = Some u →
  groupWithin batch (unitStep k u g) ∧
  ∃ added, trace (world (unitStep k u g)) = trace (world g) ++ added ∧
           Forall (withinBatch batch) added.
Proof.
  intros (Hpend & Hvar & Hunits) Hk.
  assert (Hu : unitWithin batch u).
  { eapply Forall_lookup_1; eauto. }
  assert (Hne : units g ≠ []).
  { intros Hnil. rewrite Hnil in Hk. discriminate. }
  specialize (Hvar Hne).
  assert (Hins : ∀ u', unitWithin batch u' → Forall (unitWithin batch) (<[k:=u']> (units g))).
  { intros u' Hu'. by apply Forall_insert. }
  assert (Hkeep : ∀ u' e (w' : @World RT), unitWithin batch u' →
            groupWithin batch
              (mkGroup (container g) (pending g) (<[k:=u']> (units g)) e w')).
  { intros u' e w' Hu'. split_and!; cbn; [done| |by apply Hins].
    intros _. exact Hvar. }
  destruct u as [td p]. destruct Hu as [Htd Hpc]. cbn [toDelete pc] in *.
  assert (Hev : ∀ e, eventId e = eventNameOf td → withinBatch batch (AEvent e)).
  { intros e He. by exists td. }
  unfold unitStep, setUnit, finishUnit. cbn [toDelete pc].
  destruct p as [|s| |err| |r|].
  - split; [|exists []; rewrite app_nil_r; by split].
    apply Hkeep. split; [done|]. cbn.
    intros c Hc. apply list_elem_of_singleton in Hc as ->. exact Hvar.
  - destruct s as [[|c rest]|c rest|c e|c rest|[e|]]; cbn [stopStep]; cbn in Hpc.
    + split; [|exists []; rewrite app_nil_r; by split].
      by apply Hkeep.
    + split.
      * apply Hkeep. split; [done|]. cbn. split.
        -- apply Hpc. apply list_elem_of_here.
        -- intros x Hx. apply Hpc. by apply list_elem_of_further.
      * eexists [_]. split; [reflexivity|]. apply Forall_singleton.
        exists c. split; [apply Hpc, list_elem_of_here|reflexivity].
    + destruct (call _ _ _) as [w' [e'|]] eqn:Hcall;
        (split; [apply Hkeep; split; [done|]; cbn; tauto|]);
        (exists [AContainerStop (ID c)]; split;
           [rewrite <- (call_trace _ (ContainerStop (ID c))), Hcall; reflexivity|];
         apply Forall_singleton; exists c; split; [tauto|reflexivity]).
    + split; [by apply Hkeep|].
      eexists [_]. split; [reflexivity|]. apply Forall_singleton.
      exists c. split; [done|reflexivity].
    + split; [apply Hkeep; split; [done|]; cbn; tauto|].
      eexists [_]. split; [reflexivity|]. apply Forall_singleton.
      exists c. split; [tauto|reflexivity].
    + split; [by apply Hkeep|]. exists []. rewrite app_nil_r. by split.
    + split; [by apply Hkeep|].
      eexists [_]. split; [reflexivity|]. apply Forall_singleton. by apply Hev.
  - destruct (call _ _ _) as [w' [e'|]] eqn:Hcall;
      (split; [by apply Hkeep|]);
      (exists [AContainerRemove (ID td) true]; split;
         [rewrite <- (call_trace _ (ContainerRemove (ID td) true)), Hcall; reflexivity|];
       apply Forall_singleton; exists td; split; [done|by split]).
  - split; [by apply Hkeep|].
    eexists [_]. split; [reflexivity|]. apply Forall_singleton. by apply Hev.
  - split; [by apply Hkeep|].
    eexists [_]. split; [reflexivity|]. apply Forall_singleton. by apply Hev.
  - split; [by apply Hkeep|]. exists []. rewrite app_nil_r. by split.
  - split; [done|]. exists []. rewrite app_nil_r. by split.
Qed.

Lemma step_within (batch : list Container) (g : @Group RT) (ch : Choice) :
  groupWithin batch g →
  groupWithin batch (step g ch) ∧
  ∃ added, trace (world (step g ch)) = trace (world g) ++ added ∧
           Forall (withinBatch batch) added.
Proof.
  intros Hg. destruct ch as [|k]; cbn [step].
  - destruct (pending g) as [|c rest] eqn:Hp.
    { split; [done|]. exists []. rewrite app_nil_r. by split. }
    split; [|exists []; rewrite app_nil_r; by split].
    destruct Hg as (Hpend & Hvar & Hunits). rewrite Hp in Hpend.
    assert (Hc : c ∈ batch) by (apply Hpend, list_elem_of_here).
    split_and!; cbn.
    + intros x Hx. apply Hpend. by apply list_elem_of_further.
    + done.
    + apply Forall_app. split; [done|]. apply Forall_singleton. by split.
  - destruct (units g !! k) as [u|] eqn:Hk.
    + by apply unitStep_within.
    + split; [done|]. exists []. rewrite app_nil_r. by split.
Qed.

Lemma run_within (batch : list Container) (schedule : list Choice) (g : @Group RT) :
  groupWithin batch g →
  groupWithin batch (foldl step g schedule) ∧
  ∃ added, trace (world (foldl step g schedule)) = trace (world g) ++ added ∧
           Forall (withinBatch batch) added.
Proof.
  revert g. induction schedule as [|ch schedule IH]; intros g Hg; cbn [foldl].
  - split; [done|]. exists []. rewrite app_nil_r. by split.
  - destruct (step_within batch g ch Hg) as (Hg' & l1 & Ht1 & Hl1).
    destruct (IH _ Hg') as (Hg'' & l2 & Ht2 & Hl2).
    split; [done|]. exists (l1 ++ l2). split.
    + rewrite Ht2, Ht1. by rewrite app_assoc.
    + by apply Forall_app.
Qed.

(** What [removeContainers] adds to the trace is about its batch. *)
Lemma runGroup_within (schedule : list Choice) (batch : list Container) (w : @World RT) :
  ∃ added, trace (world (runGroup schedule batch w)) = trace w ++ added ∧
           Forall (withinBatch batch) added.
Proof.
  unfold runGroup.
  destruct (run_within batch (schedule ++ drain (length batch)) (startGroup batch w))
    as (_ & added & Ht & Hall).
  - split_and!; cbn; [done|done|constructor].
  - by exists added.
Qed.

(** *** [eg.Wait] returns: every goroutine reaches its end *)

Lemma unitMeasure_zero (p : UnitPc) : unitMeasure p = 0 → p = UDone.
Proof. destruct p; cbn; try lia. reflexivity. Qed.

Lemma step_bounded (batch : list Container) (g : @Group RT) (ch : Choice) :
  groupBounded batch g → groupBounded batch (step g ch).
Proof.
  intros [Hall Hfuel]. destruct ch as [|k]; cbn [step].
  - destruct (pending g) as [|c rest] eqn:Hp; [split; [by rewrite Hp|done]|].
    split; cbn.
    + rewrite map_app. cbn. rewrite <- app_assoc. exact Hall.
    + apply Forall_app. split; [done|]. apply Forall_singleton. cbn. done.
  - destruct (units g !! k) as [u|] eqn:Hk; [|by split].
    destruct (unitStep_frame k u g Hk) as (u' & Hunits & Htd & _ & Hpend & Hless).
    split.
    + rewrite Hunits, Hpend. rewrite <- Hall. f_equal.
      change (toDelete <$> <[k:=u']> (units g) = toDelete <$> units g).
      rewrite list_fmap_insert. apply list_insert_id.
      rewrite list_lookup_fmap, Hk. cbn. by rewrite Htd.
    + rewrite Hunits. apply Forall_insert; [done|].
      assert (unitMeasure (pc u) ≤ unitFuel) by (eapply Forall_lookup_1 in Hfuel; eauto).
      destruct Hless as [Hless|[_ ->]]; [lia|done].
Qed.

Lemma run_bounded (batch : list Container) (schedule : list Choice) (g : @Group RT) :
  groupBounded batch g → groupBounded batch (foldl step g schedule).
Proof.
  revert g. induction schedule as [|ch schedule IH]; intros g Hg; cbn [foldl]; [done|].
  by apply IH, step_bounded.
Qed.

Lemma run_loop_ends (n : nat) (g : @Group RT) :
  length (pending g) ≤ n → pending (foldl step g (replicate n Main)) = [].
Proof.
  revert g. induction n as [|n IH]; intros g Hn; cbn [replicate foldl].
  - destruct (pending g); [done|cbn in Hn; lia].
  - apply IH. cbn [step]. destruct (pending g) as [|c rest] eqn:Hp.
    + rewrite Hp. cbn. lia.
    + cbn. cbn in Hn. lia.
Qed.

Lemma run_unit_ends (n k : nat) (g : @Group RT) (u : Unit) :
  units g !! k = Some u →
  unitMeasure (pc u) ≤ n →
  ∃ u', units (foldl step g (replicate n (Go k))) !! k = Some u' ∧
        pc u' = UDone ∧
        (∀ j, j ≠ k → units (foldl step g (replicate n (Go k))) !! j = units g !! j) ∧
        pending (foldl step g (replicate n (Go k))) = pending g.
Proof.
  revert g u. induction n as [|n IH]; intros g u Hk Hn; cbn [replicate foldl].
  - exists u. split_and!; [done| |done|done]. apply unitMeasure_zero. lia.
  - destruct (unitStep_frame k u g Hk) as (u' & Hunits & _ & _ & Hpend & Hless).
    assert (Hk' : units (step g (Go k)) !! k = Some u').
    { cbn [step]. rewrite Hk, Hunits. apply list_lookup_insert_eq.
      by eapply lookup_lt_Some. }
    assert (Hn' : unitMeasure (pc u') ≤ n).
    { destruct Hless as [Hless|[Hdone ->]]; [lia|]. rewrite Hdone. cbn. lia. }
    destruct (IH _ _ Hk' Hn') as (u'' & Hk'' & Hdone & Hothers & Hpend').
    exists u''. split_and!; [done|done| |].
    + intros j Hj. rewrite (Hothers j Hj). cbn [step]. rewrite Hk, Hunits.
      by apply list_lookup_insert_ne.
    + rewrite Hpend'. cbn [step]. by rewrite Hk.
Qed.

Lemma run_units_end (m : nat) (g : @Group RT) :
  Forall (fun u => unitMeasure (pc u) ≤ unitFuel) (units g) →
  m ≤ length (units g) →
  let g' := foldl step g (flat_map (fun k => replicate unitFuel (Go k)) (seq 0 m)) in
  pending g' = pending g ∧
  length (units g') = length (units g) ∧
  Forall (fun u => unitMeasure (pc u) ≤ unitFuel) (units g') ∧
  ∀ j u, j < m → units g' !! j = Some u → pc u = UDone.
Proof.
  intros Hfuel. induction m as [|m IH]; intros Hm; cbn zeta.
  - cbn. split_and!; [done|done|done|]. intros j u Hj. lia.
  - rewrite seq_S, flat_map_app, foldl_app. cbn [flat_map plus]. rewrite app_nil_r.
    destruct IH as (Hpend & Hlen & Hfuel' & Hdone); [lia|].
    set (g1 := foldl step g (flat_map _ (seq 0 m))) in *.
    destruct (lookup_lt_is_Some_2 (units g1) m) as [u Hu]; [lia|].
    destruct (run_unit_ends unitFuel m g1 u Hu) as (u' & Hu' & Hd & Hothers & Hpend').
    { eapply Forall_lookup_1 in Hfuel'; eauto. }
    set (g2 := foldl step g1 (replicate unitFuel (Go m))) in *.
    assert (Hlookup : ∀ j v, units g2 !! j = Some v →
              (j = m ∧ v = u') ∨ (j ≠ m ∧ units g1 !! j = Some v)).
    { intros j v Hv. destruct (decide (j = m)) as [->|Hne].
      - left. split; [done|]. congruence.
      - right. split; [done|]. by rewrite <- (Hothers j Hne). }
    assert (Hlen2 : length (units g2) = length (units g1)).
    { apply Nat.le_antisymm.
      - apply Nat.nlt_ge. intros Hlt.
        destruct (lookup_lt_is_Some_2 (units g2) (length (units g1))) as [v Hv]; [lia|].
        destruct (Hlookup _ _ Hv) as [[Heq _]|[_ Hold]]; [lia|].
        apply lookup_lt_Some in Hold. lia.
      - apply Nat.nlt_ge. intros Hlt.
        destruct (lookup_lt_is_Some_2 (units g1) (length (units g2))) as [v Hv]; [lia|].
        destruct (decide (length (units g2) = m)) as [Heq|Hne].
        + apply lookup_lt_Some in Hu'. lia.
        + rewrite <- (Hothers _ Hne) in Hv. apply lookup_lt_Some in Hv. lia. }
    split_and!.
    + by rewrite Hpend'.
    + by rewrite Hlen2.
    + apply Forall_lookup. intros j v Hv.
      destruct (Hlookup _ _ Hv) as [[_ ->]|[_ Hold]].
      * rewrite Hd. cbn. lia.
      * eapply Forall_lookup_1 in Hfuel'; eauto.
    + intros j v Hj Hv.
      destruct (Hlookup _ _ Hv) as [[_ ->]|[Hne Hold]]; [done|].
      eapply Hdone; [|exact Hold]. lia.
Qed.

(** Whatever the schedule, when [removeContainers] returns the loop has
    ended, one goroutine was started per container of the batch, in
    order, and every goroutine has returned. *)
Lemma runGroup_completes (schedule : list Choice) (batch : list Container) (w : @World RT) :
  pending (runGroup schedule batch w) = [] ∧
  map toDelete (units (runGroup schedule batch w)) = batch ∧
  Forall (fun u => pc u = UDone) (units (runGroup schedule batch w)).
Proof.
  unfold runGroup, drain. rewrite !foldl_app.
  set (g0 := foldl step (startGroup batch w) schedule).
  assert (Hb0 : groupBounded batch g0).
  { apply run_bounded. split; cbn; [done|constructor]. }
  set (g1 := foldl step g0 (replicate (length batch) Main)).
  assert (Hb1 : groupBounded batch g1) by by apply run_bounded.
  assert (Hp1 : pending g1 = []).
  { apply run_loop_ends. destruct Hb0 as [Hall _].
    apply (f_equal length) in Hall. rewrite length_app in Hall. lia. }
  destruct Hb1 as [Hall1 Hfuel1]. rewrite Hp1, app_nil_r in Hall1.
  assert (Hlen1 : length (units g1) = length batch).
  { apply (f_equal length) in Hall1. by rewrite length_map in Hall1. }
  destruct (run_units_end (length batch) g1 Hfuel1) as (Hpend & Hlen & Hfuel & Hdone); [lia|].
  set (g2 := foldl step g1 _) in *.
  assert (Hb2 : groupBounded batch g2).
  { apply run_bounded. split; [by rewrite Hp1, app_nil_r|done]. }
  split_and!.
  - by rewrite Hpend.
  - destruct Hb2 as [Hall2 _]. rewrite Hpend, Hp1, app_nil_r in Hall2. exact Hall2.
  - apply Forall_lookup. intros j u Hu. eapply Hdone; [|exact Hu].
    apply lookup_lt_Some in Hu. lia.
Qed.

End GroupFacts.

(** ** A batch of one container *)

Section SingleContainer.
Context {RT : Type} `{!ApiClient RT} `{!Platform}.

Lemma step_pending_Go (g : @Group RT) (k : nat) : pending (step g (Go k)) = pending g.
Proof.
  cbn [step]. destruct (units g !! k) as [u|] eqn:Hk; [|done].
  by destruct (unitStep_frame k u g Hk) as (_ & _ & _ & _ & Hpend & _).
Qed.

Lemma solo_bounded (c : Container) (w : @World RT) (i : nat) :
  groupBounded [c] (solo c w i).
Proof. apply run_bounded. split; cbn; [done|constructor]. Qed.

Lemma solo_units (c : Container) (w : @World RT) (i : nat) :
  length (units (solo c w i)) ≤ 1.
Proof.
  destruct (solo_bounded c w i) as [Hall _].
  apply (f_equal length) in Hall. rewrite length_app, length_map in Hall. cbn in Hall. lia.
Qed.

Lemma solo_S (c : Container) (w : @World RT) (i : nat) (ch : Choice) :
  soloSchedule !! i = Some ch → solo c w (S i) = step (solo c w i) ch.
Proof.
  intros Hi. unfold solo. rewrite (take_S_r _ _ _ Hi), foldl_app. reflexivity.
Qed.

Lemma solo_step_Go (c : Container) (w : @World RT) (i : nat) :
  1 ≤ i < 10 → step (solo c w i) (Go 0) = solo c w (S i).
Proof.
  intros Hi. symmetry. apply solo_S.
  destruct i as [|i]; [lia|]. cbn [soloSchedule lookup list_lookup].
  apply lookup_replicate_2. unfold unitFuel. lia.
Qed.

Lemma solo_pending (c : Container) (w : @World RT) (i : nat) :
  1 ≤ i → pending (solo c w i) = [].
Proof.
  induction i as [|i IH]; [lia|]. intros _.
  destruct i as [|i]; [reflexivity|].
  destruct (soloSchedule !! S i) as [ch|] eqn:Hch.
  - rewrite (solo_S _ _ _ _ Hch).
    cbn [soloSchedule lookup list_lookup] in Hch.
    apply lookup_replicate_1 in Hch as [-> _].
    rewrite step_pending_Go. apply IH. lia.
  - unfold solo in *. apply lookup_ge_None in Hch.
    rewrite take_ge by lia. rewrite take_ge in IH by lia. apply IH. lia.
Qed.

Lemma solo_step_Main (c : Container) (w : @World RT) (i : nat) :
  1 ≤ i → step (solo c w i) Main = solo c w i.
Proof. intros Hi. cbn [step]. by rewrite solo_pending. Qed.

Lemma solo_step_other (c : Container) (w : @World RT) (i k : nat) :
  step (solo c w i) (Go (S k)) = solo c w i.
Proof.
  cbn [step]. rewrite lookup_ge_None_2; [done|].
  pose proof (solo_units c w i). lia.
Qed.

Lemma solo_end (c : Container) (w : @World RT) :
  solo c w 10 = runGroup [] [c] w.
Proof. reflexivity. Qed.

Lemma solo_step_end (c : Container) (w : @World RT) (ch : Choice) :
  step (solo c w 10) ch = solo c w 10.
Proof.
  rewrite solo_end.
  destruct (runGroup_completes [] [c] w) as (Hpend & _ & Hdone).
  destruct ch as [|k]; cbn [step]; [by rewrite Hpend|].
  destruct (units _ !! k) as [u|] eqn:Hk; [|done].
  eapply Forall_lookup_1 in Hdone; [|exact Hk]. cbn in Hdone.
  unfold unitStep. by rewrite Hdone.
Qed.

(** Whatever is scheduled, the group moves along the one path or stays. *)
Lemma solo_step (c : Container) (w : @World RT) (i : nat) (ch : Choice) :
  i ≤ 10 → ∃ j, i ≤ j ≤ 10 ∧ step (solo c w i) ch = solo c w j.
Proof.
  intros Hi.
  destruct (decide (i = 10)) as [->|Hne].
  { exists 10. split; [lia|]. apply solo_step_end. }
  destruct ch as [|[|k]].
  - destruct i as [|i].
    + exists 1. split; [lia|]. reflexivity.
    + exists (S i). split; [lia|]. apply solo_step_Main. lia.
  - destruct i as [|i].
    + exists 0. split; [lia|]. reflexivity.
    + exists (S (S i)). split; [lia|]. apply solo_step_Go. lia.
  - exists i. split; [lia|]. apply solo_step_other.
Qed.

Lemma solo_run (c : Container) (w : @World RT) (schedule : list Choice) (i : nat) :
  i ≤ 10 → ∃ j, i ≤ j ≤ 10 ∧ foldl step (solo c w i) schedule = solo c w j.
Proof.
  revert i. induction schedule as [|ch schedule IH]; intros i Hi; cbn [foldl].
  - exists i. split; [lia|done].
  - destruct (solo_step c w i ch Hi) as (j & Hj & ->).
    destruct (IH j) as (j' & Hj' & ->); [lia|].
    exists j'. split; [lia|done].
Qed.

Lemma solo_drain_Go (c : Container) (w : @World RT) (n i : nat) :
  1 ≤ i ≤ 10 →
  foldl step (solo c w i) (replicate n (Go 0)) = solo c w (Nat.min (i + n) 10).
Proof.
  revert i. induction n as [|n IH]; intros i Hi; cbn [replicate foldl].
  - f_equal. lia.
  - destruct (decide (i = 10)) as [->|Hne].
    + rewrite solo_step_end, IH by lia. f_equal. lia.
    + rewrite solo_step_Go, IH by lia. f_equal. lia.
Qed.

Lemma solo_drain (c : Container) (w : @World RT) (i : nat) :
  i ≤ 10 → foldl step (solo c w i) (drain 1) = solo c w 10.
Proof.
  intros Hi. change (drain 1) with (Main :: replicate unitFuel (Go 0) ++ []).
  rewrite app_nil_r. cbn [foldl].
  destruct i as [|i].
  - change (step (solo c w 0) Main) with (solo c w 1).
    rewrite solo_drain_Go by lia. reflexivity.
  - rewrite solo_step_Main, solo_drain_Go by lia. f_equal. unfold unitFuel. lia.
Qed.

(** The path ends where the function literal, run in one go, ends. *)
Lemma solo_end_runUnit (c : Container) (w : @World RT) :
  (world (solo c w 10), groupErr (solo c w 10)) = runUnit c c w.
Proof.
  unfold runUnit, solo. cbn [take soloSchedule replicate unitFuel foldl].
  cbn [step startGroup pending units container world groupErr app lookup list_lookup
       unitStep pc toDelete setUnit finishUnit insert list_insert stopStep
       stopContainers].
  destruct (call (AContainerStop (ID c)) (ContainerStop (ID c))
                 (emit (StoppingEvent (eventNameOf c)) w)) as [w1 [err|]].
  - reflexivity.
  - cbn [step pending units container world groupErr lookup list_lookup
         unitStep pc toDelete setUnit finishUnit insert list_insert stopStep].
    destruct (call (AContainerRemove (ID c) true) (ContainerRemove (ID c) true)
                   (emit (RemovingEvent (eventNameOf c))
                         (emit (StoppedEvent (eventNameOf c)) w1))) as [w3 [err|]];
      reflexivity.
Qed.

(** X6. For a batch of one container, under every schedule, [removeContainers]
    does what the function literal does run in one go on that container:
    stopping, stop, then stopped, removing, removal and removed, or the
    error event of the failing stage; it returns that stage's error. *)
Lemma removeContainers_single `{!Scheduler} (c : Container) (w : @World RT) :
  removeContainers [c] w = runUnit c c w.
Proof.
  unfold removeContainers, runGroup. rewrite foldl_app.
  change (startGroup [c] w) with (solo c w 0).
  destruct (solo_run c w (containerSchedule (trace w) [c]) 0) as (j & Hj & ->); [lia|].
  change (length [c]) with 1. rewrite solo_drain by lia.
  apply solo_end_runUnit.
Qed.

End SingleContainer.

(** ** Merged sequences *)

Lemma Interleaved_grow {A} (logs : list (list A)) (t : list A) :
  Interleaved logs t → Interleaved (logs ++ [[]]) t.
Proof.
  induction 1 as [logs Hall|logs k log a t Hk _ IH].
  - constructor. apply Forall_app. split; [done|]. by apply Forall_singleton.
  - rewrite <- insert_app_l by (by eapply lookup_lt_Some).
    constructor; [|done]. by apply lookup_app_l_Some.
Qed.

Lemma Interleaved_sublist {A} (logs : list (list A)) (t : list A) :
  Interleaved logs t → Forall (fun log => sublist log t) logs.
Proof.
  induction 1 as [logs Hall|logs k log a t Hk _ IH].
  - eapply Forall_impl; [exact Hall|]. intros log ->. constructor.
  - apply Forall_insert.
    + eapply Forall_impl; [exact IH|]. intros l Hl. by apply sublist_inserts_r.
    + apply sublist_app; [|done]. eapply Forall_lookup_1 in IH; eauto.
Qed.

Lemma Interleaved_Permutation {A} (logs : list (list A)) (t : list A) :
  Interleaved logs t → concat logs ≡ₚ t.
Proof.
  induction 1 as [logs Hall|logs k log a t Hk _ IH].
  - induction Hall as [|log logs -> _ IH]; [done|]. exact IH.
  - rewrite <- IH. rewrite insert_take_drop by (by eapply lookup_lt_Some).
    rewrite <- (take_drop_middle logs k log Hk) at 3.
    rewrite !concat_app. cbn [concat].
    rewrite <- !app_assoc. f_equiv. f_equiv.
    rewrite (Permutation_app_comm [a]). done.
Qed.

(** ** The goroutines of [removeContainers], one log each *)

Section Logged.
Context {RT : Type} `{!ApiClient RT} `{!Platform}.

Lemma firstError_recorded (recorded : option error) (e : error) :
  firstError recorded (Some e) ≠ None.
Proof. by destruct recorded. Qed.

Lemma firstError_nil (recorded : option error) : firstError recorded None = recorded.
Proof. by destruct recorded. Qed.

(** One step of a goroutine, on its log. *)
Lemma unitStep_logged (k : nat) (u : Unit) (g : @Group RT) (r : Container)
    (o : UnitOutcome) :
  units g !! k = Some u →
  pcReads r (pc u) →
  (pc u = UDone → o ≠ Success → groupErr g ≠ None) →
  ∃ u' r' o',
    units (unitStep k u g) = <[k := u']> (units g) ∧
    toDelete u' = toDelete u ∧
    container (unitStep k u g) = container g ∧
    pending (unitStep k u g) = pending g ∧
    pcReads r' (pc u') ∧
    (r' = r ∨ (pc u = UStart ∧ r' = container g)) ∧
    ((trace (world (unitStep k u g)) = trace (world g) ∧
      logOf (toDelete u) r' (pc u') o' = logOf (toDelete u) r (pc u) o) ∨
     (∃ a, trace (world (unitStep k u g)) = trace (world g) ++ [a] ∧
           logOf (toDelete u) r' (pc u') o' = logOf (toDelete u) r (pc u) o ++ [a])) ∧
    (groupErr g ≠ None → groupErr (unitStep k u g) ≠ None) ∧
    (pc u' = UDone → o' ≠ Success → groupErr (unitStep k u g) ≠ None) ∧
    (groupErr (unitStep k u g) ≠ None →
     groupErr g ≠ None ∨ (pc u' = UDone ∧ o' ≠ Success)) ∧
    (pc u = UDone → pc u' = UDone ∧ o' = o).
Proof.
  intros Hk Hreads Hdone. destruct u as [td p]. unfold unitStep.
  cbn [toDelete pc] in *.
  destruct p as [|s| |err| |res|].
  - exists (mkUnit td (UStopping (SLoop [container g]))), (container g), o.
    cbn. split_and!; try done; eauto.
  - destruct s as [[|c rest]|c rest|c e|c rest|[e|]]; cbn [stopStep]; cbn in Hreads.
    + exists (mkUnit td (UStopping (SReturn None))), r, o.
      cbn. split_and!; try done; eauto.
    + assert (c = r ∧ rest = []) as [-> ->].
      { destruct Hreads as [Heq|Heq]; [by injection Heq|discriminate]. }
      exists (mkUnit td (UStopping (SCall r []))), r, o.
      cbn. split_and!; try done; eauto.
    + destruct Hreads as [-> ->].
      pose proof (call_trace (AContainerStop (ID r)) (ContainerStop (ID r)) (world g)) as Ht.
      destruct (call _ _ (world g)) as [w' [e|]]; cbn [fst] in Ht.
      * exists (mkUnit td (UStopping (SFailed r e))), r, o.
        cbn. split_and!; try done; eauto.
      * exists (mkUnit td (UStopping (SStopped r []))), r, o.
        cbn. split_and!; try done; eauto.
    + subst c. exists (mkUnit td (UStopping (SReturn (Some e)))), r, o.
      cbn. split_and!; try done; eauto.
    + destruct Hreads as [-> ->].
      exists (mkUnit td (UStopping (SLoop []))), r, o.
      cbn. split_and!; try done; eauto.
    + exists (mkUnit td UDone), r, StopFailure.
      cbn. split_and!; try done; eauto using firstError_recorded.
    + exists (mkUnit td URemove), r, o.
      cbn. split_and!; try done; eauto.
  - pose proof (call_trace (AContainerRemove (ID td) true) (ContainerRemove (ID td) true)
                           (world g)) as Ht.
    destruct (call _ _ (world g)) as [w' [e|]]; cbn [fst] in Ht.
    + exists (mkUnit td (URemoveFailed e)), r, o.
      cbn. split_and!; try done; eauto.
    + exists (mkUnit td URemoved), r, o.
      cbn. split_and!; try done; eauto.
  - exists (mkUnit td (UReturn (Some err))), r, o.
    cbn. split_and!; try done; eauto.
  - exists (mkUnit td (UReturn None)), r, o.
    cbn. split_and!; try done; eauto.
  - destruct res as [e|].
    + exists (mkUnit td UDone), r, RemoveFailure.
      cbn. split_and!; try done; eauto using firstError_recorded.
    + exists (mkUnit td UDone), r, Success.
      cbn. rewrite firstError_nil. split_and!; try done; eauto.
  - exists (mkUnit td UDone), r, o.
    split_and!; try done; eauto.
    symmetry. by apply list_insert_id.
Qed.

End Logged.

Section LoggedGroup.
Context {RT : Type} `{!ApiClient RT} `{!Platform}.

Lemma fmap_toDelete_insert (units : list Unit) (k : nat) (u u' : Unit) :
  units !! k = Some u → toDelete u' = toDelete u →
  map toDelete (<[k := u']> units) = map toDelete units.
Proof.
  intros Hk Htd.
  change (toDelete <$> <[k:=u']> units = toDelete <$> units).
  rewrite list_fmap_insert. apply list_insert_id.
  rewrite list_lookup_fmap, Hk. cbn. by rewrite Htd.
Qed.

(** The range variable holds a container at or after the position of every
    goroutine already started. *)
Lemma container_after (batch : list Container) (g : @Group RT) (k : nat) (u : Unit) :
  map toDelete (units g) ++ pending g = batch →
  (∀ v, last (units g) = Some v → container g = toDelete v) →
  units g !! k = Some u →
  container g ∈ drop k batch.
Proof.
  intros Hall Hlast Hk.
  pose proof (lookup_lt_Some _ _ _ Hk) as Hlt.
  destruct (lookup_lt_is_Some_2 (units g) (pred (length (units g)))) as [v Hv]; [lia|].
  rewrite (Hlast v) by (by rewrite last_lookup).
  apply list_elem_of_lookup. exists (pred (length (units g)) - k).
  rewrite lookup_drop, <- Hall.
  replace (k + (pred (length (units g)) - k)) with (pred (length (units g))) by lia.
  apply lookup_app_l_Some. change (map toDelete (units g)) with (toDelete <$> units g).
  by rewrite list_lookup_fmap, Hv.
Qed.

Lemma step_logged (batch : list Container) (before : list Action) (g : @Group RT)
    (ghosts : list (Container * UnitOutcome)) (ch : Choice) :
  groupLogged batch before g ghosts →
  ∃ ghosts', groupLogged batch before (step g ch) ghosts'.
Proof.
  intros (Hlen & Hall & Hlast & (added & Ht & Hmerge) & Hunits & Herr).
  destruct ch as [|k]; cbn [step].
  - destruct (pending g) as [|c rest] eqn:Hp.
    { exists ghosts. split_and!; try done. by rewrite Hp. by exists added. }
    exists (ghosts ++ [(c, Success)]).
    split_and!; cbn [units pending container world groupErr].
    + rewrite !length_app. cbn. lia.
    + rewrite map_app. cbn. by rewrite <- app_assoc.
    + intros v Hv. rewrite last_snoc in Hv. by injection Hv as <-.
    + exists added. split; [done|].
      unfold groupLogs. cbn [units].
      rewrite zip_with_app by (symmetry; exact Hlen). cbn.
      by apply Interleaved_grow.
    + intros j u gh Hu Hgh.
      destruct (decide (j < length (units g))) as [Hj|Hj].
      * rewrite lookup_app_l in Hu by done. rewrite lookup_app_l in Hgh by lia.
        by eapply Hunits.
      * rewrite lookup_app_r in Hu by lia. rewrite lookup_app_r in Hgh by lia.
        rewrite Hlen in Hgh.
        destruct (j - length (units g)) as [|n] eqn:Hn; [|done].
        cbn in Hu, Hgh. injection Hu as <-. injection Hgh as <-.
        cbn. split_and!; [|done|done].
        assert (j = length (map toDelete (units g))) as ->
          by (rewrite length_map; lia).
        rewrite <- Hall, drop_app_length. apply list_elem_of_here.
    + intros Hne. destruct (Herr Hne) as (j & u & gh & Hu & Hgh & Hd & Ho).
      exists j, u, gh. split_and!; try done; by apply lookup_app_l_Some.
  - destruct (units g !! k) as [u|] eqn:Hk.
    2:{ exists ghosts. split_and!; try done. by exists added. }
    destruct (lookup_lt_is_Some_2 ghosts k) as [[r o] Hgh].
    { rewrite Hlen. by eapply lookup_lt_Some. }
    destruct (Hunits k u (r, o) Hk Hgh) as (Hr & Hreads & Hdone). cbn [fst snd] in *.
    destruct (unitStep_logged k u g r o Hk Hreads Hdone)
      as (u' & r' & o' & Hu' & Htd & Hc & Hpend & Hreads' & Hr' & Hlog & Hmono & Hbad &
          Hnew & Hstay).
    exists (<[k := (r', o')]> ghosts).
    assert (Hklt : k < length (units g)) by (by eapply lookup_lt_Some).
    split_and!.
    + rewrite Hu', !length_insert. exact Hlen.
    + rewrite Hu', Hpend. by rewrite (fmap_toDelete_insert _ _ u).
    + intros v Hv. rewrite Hc. rewrite Hu', last_lookup, length_insert in Hv.
      destruct (decide (k = pred (length (units g)))) as [Heq|Hne].
      * rewrite <- Heq, list_lookup_insert_eq in Hv by done. injection Hv as <-.
        rewrite Htd. apply Hlast. by rewrite last_lookup, <- Heq.
      * rewrite list_lookup_insert_ne in Hv by done. apply Hlast. by rewrite last_lookup.
    + assert (Hlogs : groupLogs (unitStep k u g) (<[k:=(r', o')]> ghosts) =
                      <[k := logOf (toDelete u') r' (pc u') o']> (groupLogs g ghosts)).
      { unfold groupLogs. rewrite Hu'.
        exact (eq_sym (insert_zip_with
                         (fun u gh => logOf (toDelete u) gh.1 (pc u) gh.2)
                         (units g) ghosts k u' (r', o'))). }
      assert (Hold : groupLogs g ghosts !! k = Some (logOf (toDelete u) r (pc u) o)).
      { unfold groupLogs. rewrite lookup_zip_with, Hk, Hgh. reflexivity. }
      rewrite Hlogs, Htd.
      destruct Hlog as [[Hsame ->]|(a & Hgrow & ->)].
      * exists added. split; [by rewrite Hsame|]. by rewrite list_insert_id.
      * exists (added ++ [a]). split; [by rewrite Hgrow, Ht, app_assoc|].
        by constructor.
    + intros j v gh Hv Hg. rewrite Hu' in Hv.
      destruct (decide (j = k)) as [->|Hne].
      * rewrite list_lookup_insert_eq in Hv by done.
        rewrite list_lookup_insert_eq in Hg by lia.
        injection Hv as <-. injection Hg as <-. cbn [fst snd].
        split_and!; [|done|done].
        destruct Hr' as [->|[_ ->]]; [done|]. by eapply container_after.
      * rewrite list_lookup_insert_ne in Hv by done.
        rewrite list_lookup_insert_ne in Hg by done.
        destruct (Hunits j v gh Hv Hg) as (? & ? & Hd).
        split_and!; [done|done|]. intros ? ?. apply Hmono. by apply Hd.
    + intros Hne. destruct (Hnew Hne) as [Hg|[Hd Ho]].
      * destruct (Herr Hg) as (j & v & gh & Hv & Hgj & Hd & Ho).
        destruct (decide (j = k)) as [->|Hjk].
        -- exists k, u', (r', o'). rewrite Hu'.
           rewrite !list_lookup_insert_eq by lia.
           assert (v = u) as -> by congruence.
           assert (gh = (r, o)) as -> by congruence. cbn [snd] in Ho.
           destruct (Hstay Hd) as [Hd' ->]. by split_and!.
        -- exists j, v, gh. rewrite Hu'.
           rewrite !list_lookup_insert_ne by done. by split_and!.
      * exists k, u', (r', o'). rewrite Hu'.
        rewrite !list_lookup_insert_eq by lia. by split_and!.
Qed.

End LoggedGroup.

Section LoggedRun.
Context {RT : Type} `{!ApiClient RT} `{!Platform}.

Lemma run_logged (batch : list Container) (before : list Action) (schedule : list Choice)
    (g : @Group RT) (ghosts : list (Container * UnitOutcome)) :
  groupLogged batch before g ghosts →
  ∃ ghosts', groupLogged batch before (foldl step g schedule) ghosts'.
Proof.
  revert g ghosts. induction schedule as [|ch schedule IH]; intros g ghosts Hg; cbn [foldl].
  - by exists ghosts.
  - destruct (step_logged batch before g ghosts ch Hg) as (ghosts' & Hg'). by eapply IH.
Qed.

Lemma runGroup_logged (schedule : list Choice) (batch : list Container) (w : @World RT) :
  ∃ ghosts, groupLogged batch (trace w) (runGroup schedule batch w) ghosts.
Proof.
  unfold runGroup. apply (run_logged batch (trace w) _ _ []).
  split_and!; cbn; try done.
  exists []. rewrite app_nil_r. split; [done|]. by constructor.
Qed.

Lemma groupLogs_done (started : list Unit) (container : Container) (rest : list Container)
    (err : option error) (w : @World RT) (ghosts : list (Container * UnitOutcome)) :
  Forall (fun u => pc u = UDone) started →
  groupLogs (mkGroup container rest started err w) ghosts =
  batchLogs (map toDelete started) ghosts.
Proof.
  unfold groupLogs, batchLogs. cbn [units].
  intros Hdone. revert ghosts.
  induction Hdone as [|u started Hu _ IH]; intros [|gh ghosts]; cbn; try done.
  rewrite Hu. cbn. f_equal. apply IH.
Qed.

(** Everything [removeContainers] adds to the trace, for any schedule. *)
Lemma removeContainers_logs `{!Scheduler} (batch : list Container) (w : @World RT) :
  ∃ (runs : list (Container * UnitOutcome)) (added : list Action),
    trace (removeContainers batch w).1 = trace w ++ added ∧
    length runs = length batch ∧
    (∀ k run, runs !! k = Some run → run.1 ∈ drop k batch) ∧
    Interleaved (batchLogs batch runs) added ∧
    ((removeContainers batch w).2 = None ↔ Forall (fun run => run.2 = Success) runs).
Proof.
  unfold removeContainers. cbn [fst snd].
  set (schedule := containerSchedule (trace w) batch).
  destruct (runGroup_logged schedule batch w)
    as (ghosts & Hlen & _ & _ & (added & Ht & Hmerge) & Hunits & Herr).
  destruct (runGroup_completes schedule batch w) as (Hpend & Hbatch & Hdone).
  destruct (runGroup schedule batch w) as [c pend started err w'] eqn:Hg.
  cbn [units pending world groupErr] in *.
  rewrite groupLogs_done in Hmerge by done. rewrite Hbatch in Hmerge.
  assert (Hlen' : length ghosts = length batch).
  { rewrite Hlen, <- Hbatch. by rewrite length_map. }
  exists ghosts, added. split_and!; [done|done| |done|].
  - intros k run Hrun.
    destruct (lookup_lt_is_Some_2 started k) as [u Hu].
    { rewrite <- Hlen. by eapply lookup_lt_Some. }
    by destruct (Hunits k u run Hu Hrun) as (? & _ & _).
  - split.
    + intros ->. apply Forall_lookup. intros k run Hrun.
      destruct (lookup_lt_is_Some_2 started k) as [u Hu].
      { rewrite <- Hlen. by eapply lookup_lt_Some. }
      destruct (Hunits k u run Hu Hrun) as (_ & _ & Hbad).
      destruct (decide (run.2 = Success)) as [|Hne]; [done|].
      exfalso. eapply Hbad; [|done|done]. eapply Forall_lookup_1 in Hdone; eauto.
    + intros Hall. destruct err as [e|]; [|done]. exfalso.
      destruct Herr as (k & u & gh & _ & Hgh & _ & Hne); [done|].
      eapply Forall_lookup_1 in Hall; eauto.
Qed.

End LoggedRun.

Section LoggedFacts.
Context {RT : Type} `{!ApiClient RT} `{!Platform}.

Lemma batchLogs_lookup (batch : list Container) (runs : list (Container * UnitOutcome))
    (k : nat) (c : Container) :
  length runs = length batch →
  batch !! k = Some c →
  ∃ run, runs !! k = Some run ∧ batchLogs batch runs !! k = Some (unitLog c run.1 run.2).
Proof.
  intros Hlen Hc.
  destruct (lookup_lt_is_Some_2 runs k) as [run Hrun].
  { rewrite Hlen. by eapply lookup_lt_Some. }
  exists run. split; [done|]. unfold batchLogs. by rewrite lookup_zip_with, Hc, Hrun.
Qed.



Lemma batchLogs_errors (batch : list Container) (runs : list (Container * UnitOutcome)) :
  length runs = length batch →
  Exists (fun a => isErrorEvent a = true) (concat (batchLogs batch runs)) ↔
  ¬ Forall (fun run => run.2 = Success) runs.
Proof.
  revert runs. induction batch as [|c batch IH]; intros [|[r o] runs] Hlen;
    cbn in Hlen; try lia.
  - cbn. split; [by intros ?%Exists_nil|]. intros Hn. by destruct Hn.
  - change (batchLogs (c :: batch) ((r, o) :: runs))
      with (unitLog c r o :: batchLogs batch runs).
    cbn [concat]. rewrite Exists_app, IH by lia. rewrite Forall_cons. cbn [snd].
    destruct o.
    + split; [intros _ [? _]; done|]. intros _. left. cbn.
      do 2 apply Exists_cons_tl. apply Exists_cons_hd. reflexivity.
    + split; [intros _ [? _]; done|]. intros _. left. cbn.
      do 5 apply Exists_cons_tl. apply Exists_cons_hd. reflexivity.
    + split.
      * intros [Hex|Hn]; [|tauto]. exfalso. cbn in Hex.
        repeat (apply Exists_cons in Hex as [Hex|Hex]; [discriminate|]).
        by apply Exists_nil in Hex.
      * intros Hn. right. tauto.
Qed.

End LoggedFacts.

Section RemoveContainersFacts.
Context {RT : Type} `{!ApiClient RT} `{!Platform} `{!Scheduler}.


(** X2. When [removeContainers] returns nil, then for every container of
    the batch the trace shows, in this order, the removing event, the
    request to remove it by force and the removed event. *)
Theorem removeContainers_nil_removes_all (batch : list Container) (w : @World RT) :
  (removeContainers batch w).2 = None →
  ∃ added,
    trace (removeContainers batch w).1 = trace w ++ added ∧
    ∀ c, c ∈ batch → sublist (removedActions c) added.
Proof.
  intros Hnil.
  destruct (removeContainers_logs batch w) as (runs & added & Ht & Hlen & _ & Hm & Hres).
  exists added. split; [done|]. intros c Hc.
  apply list_elem_of_lookup in Hc as [k Hk].
  destruct (batchLogs_lookup batch runs k c Hlen Hk) as (run & Hrun & Hlog).
  apply Hres in Hnil. eapply Forall_lookup_1 in Hnil; [|exact Hrun]. cbn in Hnil.
  rewrite Hnil in Hlog.
  apply Interleaved_sublist in Hm. eapply Forall_lookup_1 in Hm; [|exact Hlog].
  etrans; [|exact Hm]. cbn [unitLog]. apply sublist_inserts_l. reflexivity.
Qed.

(** X3. [removeContainers] returns an error exactly when it has emitted
    an error event: the returned error and the events agree on whether
    something failed. *)
Theorem removeContainers_error_iff_event (batch : list Container) (w : @World RT) :
  ∃ added,
    trace (removeContainers batch w).1 = trace w ++ added ∧
    ((removeContainers batch w).2 ≠ None ↔
     Exists (fun a => isErrorEvent a = true) added).
Proof.
  destruct (removeContainers_logs batch w) as (runs & added & Ht & Hlen & _ & Hm & Hres).
  exists added. split; [done|].
  apply Interleaved_Permutation in Hm. rewrite <- Hm, (batchLogs_errors _ _ Hlen).
  by rewrite Hres.
Qed.


(** X5. An empty batch: [removeContainers] returns nil at once, whatever
    the schedule, and leaves the runtime and the trace as they were. *)
Theorem removeContainers_empty (w : @World RT) :
  removeContainers [] w = (w, None).
Proof.
  unfold removeContainers, runGroup.
  assert (Hidle : ∀ schedule, foldl step (startGroup [] w) schedule = startGroup [] w).
  { induction schedule as [|ch schedule IH]; [done|]. cbn [foldl].
    destruct ch as [|k]; cbn [step startGroup pending units]; [exact IH|].
    rewrite lookup_nil. exact IH. }
  by rewrite Hidle.
Qed.

(** X7. [stopContainers] stops the containers in order and gives up at
    the first refusal. When it returns nil the trace shows, for each
    container in turn, stopping, the stop request, stopped. When it
    returns an error, the containers before the refused one were stopped,
    the refused one shows stopping, the stop request and the error event,
    and the containers after it were not touched. *)
Theorem stopContainers_fail_fast (containers : list Container) (w : @World RT) :
  match (stopContainers containers w).2 with
  | None =>
      trace (stopContainers containers w).1 =
        trace w ++ concat (map stoppedActions containers)
  | Some _ =>
      ∃ before refused after,
        containers = before ++ refused :: after ∧
        trace (stopContainers containers w).1 =
          trace w ++ concat (map stoppedActions before) ++ stopFailedActions refused
  end.
Proof.
  revert w. induction containers as [|c rest IH]; intros w; cbn [stopContainers].
  - cbn. by rewrite app_nil_r.
  - pose proof (call_trace (AContainerStop (ID c)) (ContainerStop (ID c))
                           (emit (StoppingEvent (eventNameOf c)) w)) as Ht.
    destruct (call _ _ _) as [w2 [err|]]; cbn [fst snd] in *.
    + exists [], c, rest. split; [done|]. cbn. rewrite Ht. cbn.
      by rewrite <- !app_assoc.
    + specialize (IH (emit (StoppedEvent (eventNameOf c)) w2)).
      destruct (stopContainers rest _) as [w3 [err|]]; cbn [fst snd] in *.
      * destruct IH as (before & refused & after & -> & Ht3).
        exists (c :: before), refused, after. split; [done|].
        rewrite Ht3. cbn. rewrite Ht. cbn. by rewrite <- !app_assoc.
      * rewrite IH. cbn. rewrite Ht. cbn. by rewrite <- !app_assoc.
Qed.

End RemoveContainersFacts.

(** ** Project Reconstructor, continued *)

Section ReconstructionEffects.
Context {RT : Type} `{!ApiClient RT} `{!Platform}.

(** X8. The only thing the reconstruction does to the outside world, in
    every one of its outcomes, is its one container listing: it adds that
    request to the trace and leaves the runtime as the listing left it. *)
Theorem projectFromContainerLabels_only_lists (projectName : string) (w : @World RT) :
  trace (projectFromContainerLabels projectName w).1 =
    trace w ++ [AContainerList (projectFilter projectName)] ∧
  rt (projectFromContainerLabels projectName w).1 =
    (ContainerList (projectFilter projectName) (rt w)).1.
Proof.
  rewrite projectFromContainerLabels_world. split; [apply call_trace|].
  unfold call. by destruct (ContainerList _ (rt w)).
Qed.

End ReconstructionEffects.

(** ** The teardown *)

Section DownFacts.
Context {RT : Type} `{!ApiClient RT} `{!Platform} `{!Scheduler}.

Lemma adds_refl (P : Action → Prop) (w : @World RT) : adds P w w.
Proof. exists []. rewrite app_nil_r. by split. Qed.

Lemma adds_trans (P : Action → Prop) (w1 w2 w3 : @World RT) :
  adds P w1 w2 → adds P w2 w3 → adds P w1 w3.
Proof.
  intros (l1 & H1 & F1) (l2 & H2 & F2). exists (l1 ++ l2). split.
  - rewrite H2, H1. by rewrite app_assoc.
  - by apply Forall_app.
Qed.

Lemma adds_mono (P Q : Action → Prop) (w1 w2 : @World RT) :
  (∀ a, P a → Q a) → adds P w1 w2 → adds Q w1 w2.
Proof.
  intros HPQ (l & Hl & Fl). exists l. split; [done|].
  eapply Forall_impl; eauto.
Qed.

Lemma adds_call {A} (P : Action → Prop) (a : Action) (f : RT → RT * A) (w : @World RT) :
  P a → adds P w (call a f w).1.
Proof.
  intros Ha. exists [a]. split; [apply call_trace|by apply Forall_singleton].
Qed.

Lemma call_result {A} (a : Action) (f : RT → RT * A) (w : @World RT) :
  (call a f w).2 = (f (rt w)).2.
Proof. unfold call. destruct (f (rt w)). reflexivity. Qed.

Lemma call_runtime {A} (a : Action) (f : RT → RT * A) (w : @World RT) :
  rt (call a f w).1 = (f (rt w)).1.
Proof. unfold call. destruct (f (rt w)). reflexivity. Qed.

Lemma removeContainers_within (batch : list Container) (w : @World RT) :
  adds (withinBatch batch) w (removeContainers batch w).1.
Proof. unfold removeContainers. cbn [fst]. apply runGroup_within. Qed.

Lemma withinBatch_mono (batch batch' : list Container) (a : Action) :
  batch ⊆ batch' → withinBatch batch a → withinBatch batch' a.
Proof. intros Hsub (c & Hc & Ha). exists c. split; [by apply Hsub|done]. Qed.

(** The action of the executor hands to [removeContainers] the records
    of its service and keeps the others. *)
Lemma removeService_within (service : ServiceConfig) (containers : Containers)
    (w : @World RT) :
  adds (fun a => ∃ c, c ∈ containers ∧ isService (SvcName service) c = true ∧ concerns c a)
       w (removeService service containers w).1 ∧
  (removeService service containers w).2.1 ⊆ containers.
Proof.
  unfold removeService.
  destruct (split containers (isService (SvcName service)))
    as [serviceContainers others] eqn:Hsplit.
  pose proof (removeContainers_within serviceContainers w) as Hadds.
  destruct (removeContainers serviceContainers w) as [w' err]. cbn [fst snd] in *.
  split.
  - eapply adds_mono; [|exact Hadds].
    intros a (c & Hc & Ha). exists c.
    assert (Hin : c ∈ (split containers (isService (SvcName service))).1)
      by by rewrite Hsplit.
    apply split_matched_elem in Hin as [Hin Hp]. by split_and!.
  - intros c Hc.
    assert (Hin : c ∈ (split containers (isService (SvcName service))).2)
      by by rewrite Hsplit.
    by apply split_others_elem in Hin as [Hin _].
Qed.

Lemma visit_within (order : list ServiceConfig) (containers : Containers) (w : @World RT) :
  adds (fun a => ∃ c s, c ∈ containers ∧ s ∈ order ∧
                        isService (SvcName s) c = true ∧ concerns c a)
       w (visit removeService order containers w).1 ∧
  (visit removeService order containers w).2.1 ⊆ containers.
Proof.
  revert containers w. induction order as [|service rest IH]; intros containers w.
  - cbn. split; [apply adds_refl|done].
  - cbn [visit].
    destruct (removeService_within service containers w) as [Hadds Hsub].
    destruct (removeService service containers w) as [w' [others [err|]]];
      cbn [fst snd] in *.
    + split; [|done]. eapply adds_mono; [|exact Hadds].
      intros a (c & Hc & Hp & Ha). exists c, service.
      split_and!; [done|apply list_elem_of_here|done|done].
    + destruct (IH others w') as [Hadds' Hsub'].
      split; [|by etrans].
      eapply adds_trans.
      * eapply adds_mono; [|exact Hadds].
        intros a (c & Hc & Hp & Ha). exists c, service.
        split_and!; [done|apply list_elem_of_here|done|done].
      * eapply adds_mono; [|exact Hadds'].
        intros a (c & s & Hc & Hs & Hp & Ha). exists c, s.
        split_and!; [by apply Hsub|by apply list_elem_of_further|done|done].
Qed.

Lemma visit_app {S} (fn : ServiceConfig → S → @World RT → @World RT * (S * option error))
    (before after : list ServiceConfig) (captured captured' : S) (w w' : @World RT) :
  visit fn before captured w = (w', (captured', None)) →
  visit fn (before ++ after) captured w = visit fn after captured' w'.
Proof.
  revert captured w. induction before as [|s before IH]; intros captured w; cbn [visit app].
  - by intros [= -> ->].
  - destruct (fn s captured w) as [w1 [captured1 [err|]]]; [discriminate|]. apply IH.
Qed.

Lemma networkGroup_trace (networks : list Network) (recorded : option error)
    (w : @World RT) :
  trace (networkGroup networks recorded w).1 =
    trace w ++ map (fun n => ANetworkRemove (NetID n)) networks.
Proof.
  revert recorded w. induction networks as [|n rest IH]; intros recorded w;
    cbn [networkGroup map].
  - by rewrite app_nil_r.
  - unfold ensureNetworkDown.
    pose proof (call_trace (ANetworkRemove (NetID n)) (NetworkRemove (NetID n)) w) as Ht.
    destruct (call _ _ w) as [w' [err|]]; cbn [fst] in Ht.
    + destruct (IsNotFound err); rewrite IH, Ht, <- app_assoc; reflexivity.
    + rewrite IH, Ht, <- app_assoc. reflexivity.
Qed.

Lemma removeNetworks_within (networks : list Network) (w : @World RT) :
  adds (fun a => ∃ n, n ∈ networks ∧ a = ANetworkRemove (NetID n))
       w (removeNetworks networks w).1.
Proof.
  unfold removeNetworks. eexists. split; [apply networkGroup_trace|].
  apply Forall_forall. intros a Ha. apply list_elem_of_In in Ha.
  apply in_map_iff in Ha as (n & <- & Hn). exists n. split; [|done].
  apply list_elem_of_In in Hn. by eapply pickOrder_elem.
Qed.

Lemma adds_bind {A B} (P : Action → Prop) (m : M A) (k : A → M B) (w : @World RT) :
  adds P w (m w).1 →
  (∀ a, (m w).2 = Ok a → adds P (m w).1 (k a (m w).1).1) →
  adds P w (bind m k w).1.
Proof.
  intros Hm Hk. unfold bind. destruct (m w) as [w' [a|e|msg]]; cbn [fst snd] in *;
    [|done|done].
  eapply adds_trans; [exact Hm|]. by apply Hk.
Qed.

Lemma bind_ok {A B} (m : M A) (k : A → M B) (w w' : @World RT) (a : A) :
  m w = (w', Ok a) → bind m k w = k a w'.
Proof. intros Hm. unfold bind. by rewrite Hm. Qed.

Lemma request_world {A} (a : Action) (f : RT → RT * (error + A)) (w : @World RT) :
  (request a f w).1 = (call a f w).1.
Proof. unfold request. by destruct (call a f w) as [w' [e|v]]. Qed.

Lemma request_result {A} (a : Action) (f : RT → RT * (error + A)) (w : @World RT) (v : A) :
  (request a f w).2 = Ok v → (f (rt (w))).2 = inr v.
Proof.
  unfold request. rewrite <- (call_result a f w).
  destruct (call a f w) as [w' [e|v']]; cbn; [discriminate|]. by intros [= ->].
Qed.

Lemma returning_world (f : @World RT → @World RT * option error) (w : @World RT) :
  (returning f w).1 = (f w).1.
Proof. unfold returning. by destruct (f w). Qed.

(** The networks are listed by [projectName] and only listed ones are
    removed. *)
Lemma sweep_within (projectName : string) (w : @World RT) :
  adds (fun a => a = ANetworkList (projectFilter projectName) ∨
                 ∃ rt0 networks n,
                   (NetworkList (projectFilter projectName) rt0).2 = inr networks ∧
                   n ∈ networks ∧ a = ANetworkRemove (NetID n))
       w
       (bind (request (ANetworkList (projectFilter projectName))
                      (NetworkList (projectFilter projectName)))
             (fun networks => returning (removeNetworks networks)) w).1.
Proof.
  apply adds_bind.
  - rewrite request_world. apply adds_call. by left.
  - intros networks Hres. apply request_result in Hres.
    rewrite returning_world.
    eapply adds_mono; [|apply removeNetworks_within].
    intros a (n & Hn & ->). right. by exists (rt w), networks, n.
Qed.

(** Everything [downProject] does after its container listing. *)
Lemma downProject_trace (projectName : string) (project : Project)
    (removeOrphans : bool) (w : @World RT) :
  adds (downAction projectName project removeOrphans w)
       (call (AContainerList (projectFilter (Name project)))
             (ContainerList (projectFilter (Name project))) w).1
       (downProject projectName project removeOrphans w).1.
Proof.
  unfold downProject.
  set (f := projectFilter (Name project)).
  unfold bind at 1.
  pose proof (request_world (AContainerList f) (ContainerList f) w) as Hw1.
  pose proof (request_result (AContainerList f) (ContainerList f) w) as Hr1.
  destruct (request (AContainerList f) (ContainerList f) w) as [w1 [containers|e|msg]];
    cbn [fst snd] in *; rewrite <- Hw1; [|apply adds_refl|apply adds_refl].
  specialize (Hr1 containers eq_refl). clear Hw1.
  apply adds_bind; [|intros others Hothers; apply adds_bind; [|intros _ _]].
  - unfold InReverseDependencyOrder.
    destruct (reverseDependencyOrder project) as [e|order] eqn:Horder;
      [apply adds_refl|].
    destruct (visit_within order containers w1) as [Hadds _].
    destruct (visit removeService order containers w1) as [wv [others [err|]]];
      cbn [fst snd] in *.
    all: eapply adds_mono; [|exact Hadds].
    all: intros a (c & s & Hc & Hs & Hp & Ha); left; exists containers, c.
    all: split_and!; [done|done|done|].
    all: intros _; exists s; split; [|done].
    all: by eapply reverseDependencyOrder_visits.
  - assert (Hsub : others ⊆ containers).
    { unfold InReverseDependencyOrder in Hothers.
      destruct (reverseDependencyOrder project) as [e|order]; [discriminate|].
      destruct (visit_within order containers w1) as [_ Hsub].
      destruct (visit removeService order containers w1) as [wv [others' [err|]]];
        cbn [fst snd] in *; [discriminate|].
      by injection Hothers as <-. }
    destruct removeOrphans; cbn [andb]; [|apply adds_refl].
    case_bool_decide; [|apply adds_refl].
    rewrite returning_world.
    eapply adds_mono; [|apply removeContainers_within].
    intros a (c & Hc & Ha). left. exists containers, c.
    split_and!; [done|by apply Hsub|done|discriminate].
  - eapply adds_mono; [|apply sweep_within].
    intros a [->|Hn]; [right; by left|right; by right].
Qed.

Lemma Down_resolved (projectName : string) (options : DownOptions)
    (w0 w : @World RT) (project : Project) :
  resolveProject projectName options w0 = (w, Ok project) →
  Down projectName options w0 = downProject projectName project (RemoveOrphans options) w.
Proof. intros Hres. unfold Down, bind. by rewrite Hres. Qed.

Lemma Down_trace (projectName : string) (options : DownOptions)
    (w0 w : @World RT) (project : Project) :
  resolveProject projectName options w0 = (w, Ok project) →
  ∃ added,
    trace (Down projectName options w0).1 =
      trace w ++ AContainerList (projectFilter (Name project)) :: added ∧
    Forall (downAction projectName project (RemoveOrphans options) w) added.
Proof.
  intros Hres. rewrite (Down_resolved _ _ _ _ _ Hres).
  destruct (downProject_trace projectName project (RemoveOrphans options) w)
    as (added & Ht & Hall).
  exists added. split; [|done].
  rewrite Ht, call_trace, <- app_assoc. reflexivity.
Qed.

(** C5. Let the project be resolved and its containers listed, let the
    executor's order be [before ++ service :: after], let the batches of
    the services in [before] all succeed and let the batch of [service]
    return the error [err] in world [w3]. Then [Down] returns [err] and
    ends in [w3] itself: after the failing batch returned nothing was
    requested from the runtime and no event was emitted, so no service
    of [after] is handled, no orphan is removed and the networks are
    neither listed nor removed. *)
Theorem Down_aborts_at_failed_batch
    (projectName : string) (options : DownOptions) (project : Project)
    (w0 w w1 w2 w3 : @World RT) (containers remaining : Containers)
    (before after : list ServiceConfig) (service : ServiceConfig) (err : error) :
  resolveProject projectName options w0 = (w, Ok project) →
  call (AContainerList (projectFilter (Name project)))
       (ContainerList (projectFilter (Name project))) w = (w1, inr containers) →
  reverseDependencyOrder project = inr (before ++ service :: after) →
  visit removeService before containers w1 = (w2, (remaining, None)) →
  removeContainers (split remaining (isService (SvcName service))).1 w2 = (w3, Some err) →
  Down projectName options w0 = (w3, Fail err).
Proof.
  intros Hres Hlist Horder Hbefore Hbatch.
  rewrite (Down_resolved _ _ _ _ _ Hres).
  unfold downProject, bind at 1, request. rewrite Hlist.
  unfold bind at 1, InReverseDependencyOrder. rewrite Horder.
  rewrite (visit_app _ _ _ _ _ _ _ Hbefore). cbn [visit].
  unfold removeService at 1.
  destruct (split remaining (isService (SvcName service))) as [batch others].
  cbn [fst] in Hbatch. rewrite Hbatch. reflexivity.
Qed.

(** C7. When the runtime lists no container under the project name, at
    the listing of the reconstruction and at the listing of [Down], the
    reconstruction returns the project of that name without services and
    [Down] by name only does, after these two listings, the network sweep
    and nothing else: it lists the networks and removes the listed ones.
    When no network is listed either, [Down] returns nil having done
    nothing but its three listings. *)
Theorem Down_of_nothing
    (projectName : string) (removeOrphans : bool) (w : @World RT) :
  (ContainerList (projectFilter projectName) (rt w)).2 = inr [] →
  (ContainerList (projectFilter projectName)
     (ContainerList (projectFilter projectName) (rt w)).1).2 = inr [] →
  (projectFromContainerLabels projectName w).2 = Ok (mkProject projectName []) ∧
  (∃ w2, trace w2 = trace w ++ [AContainerList (projectFilter projectName);
                                AContainerList (projectFilter projectName)] ∧
         rt w2 = (ContainerList (projectFilter projectName)
                    (ContainerList (projectFilter projectName) (rt w)).1).1 ∧
         Down projectName (mkDownOptions None removeOrphans) w =
           bind (request (ANetworkList (projectFilter projectName))
                         (NetworkList (projectFilter projectName)))
                (fun networks => returning (removeNetworks networks)) w2 ∧
         ((NetworkList (projectFilter projectName) (rt w2)).2 = inr [] →
          (Down projectName (mkDownOptions None removeOrphans) w).2 = Ok tt ∧
          trace (Down projectName (mkDownOptions None removeOrphans) w).1 =
            trace w ++ [AContainerList (projectFilter projectName);
                        AContainerList (projectFilter projectName);
                        ANetworkList (projectFilter projectName)])).
Proof.
  set (f := projectFilter projectName).
  intros Hnone1 Hnone2.
  set (w1 := (call (AContainerList f) (ContainerList f) w).1).
  set (w2 := (call (AContainerList f) (ContainerList f) w1).1).
  assert (Hrt1 : rt w1 = (ContainerList f (rt w)).1) by apply call_runtime.
  assert (Hrt2 : rt w2 = (ContainerList f (rt w1)).1) by apply call_runtime.
  assert (Hcall1 : call (AContainerList f) (ContainerList f) w = (w1, inr [])).
  { rewrite (surjective_pairing (call _ _ w)). by rewrite call_result, Hnone1. }
  assert (Hcall2 : call (AContainerList f) (ContainerList f) w1 = (w2, inr [])).
  { rewrite (surjective_pairing (call _ _ w1)). by rewrite call_result, Hrt1, Hnone2. }
  assert (Hrec : projectFromContainerLabels projectName w =
                 (w1, Ok (mkProject projectName []))).
  { unfold projectFromContainerLabels, bind, request. fold f. rewrite Hcall1.
    reflexivity. }
  assert (Hdown : Down projectName (mkDownOptions None removeOrphans) w =
                  bind (request (ANetworkList f) (NetworkList f))
                       (fun networks => returning (removeNetworks networks)) w2).
  { unfold Down, resolveProject. cbn [OptProject RemoveOrphans].
    rewrite (bind_ok _ _ _ _ _ Hrec).
    unfold downProject. cbn [Name]. fold f.
    erewrite bind_ok; [|unfold request; rewrite Hcall2; reflexivity].
    erewrite bind_ok; [|reflexivity].
    erewrite bind_ok; [|by rewrite andb_false_r].
    reflexivity. }
  assert (Ht2 : trace w2 = trace w ++ [AContainerList f; AContainerList f]).
  { unfold w2, w1. rewrite !call_trace, <- !app_assoc. reflexivity. }
  split; [by rewrite Hrec|].
  exists w2. split_and!; [done|by rewrite Hrt2, Hrt1|done|].
  intros Hnets. rewrite Hdown.
  set (w3 := (call (ANetworkList f) (NetworkList f) w2).1).
  assert (Hcall3 : call (ANetworkList f) (NetworkList f) w2 = (w3, inr [])).
  { rewrite (surjective_pairing (call _ _ w2)). by rewrite call_result, Hnets. }
  erewrite bind_ok; [|unfold request; rewrite Hcall3; reflexivity].
  unfold returning, removeNetworks. rewrite pickOrder_nil. cbn [networkGroup ofError].
  split; [reflexivity|]. cbn [fst]. unfold w3. rewrite call_trace, Ht2, <- app_assoc.
  reflexivity.
Qed.

Lemma bind_fail {A B} (m : M A) (k : A → M B) (w w' : @World RT) (e : error) :
  m w = (w', Fail e) → bind m k w = (w', Fail e).
Proof. intros Hm. unfold bind. by rewrite Hm. Qed.

Lemma concerns_container_action (c : Container) (a : Action) :
  concerns c a → isContainerAction a = true.
Proof. by destruct a. Qed.

(** A batch that returns nil: what it added is about the batch, and holds
    a forced removal request for every container of the batch. *)
Lemma removeContainers_nil_added (batch : list Container) (w : @World RT) :
  ∃ added,
    trace (removeContainers batch w).1 = trace w ++ added ∧
    Forall (withinBatch batch) added ∧
    ((removeContainers batch w).2 = None →
     ∀ c, c ∈ batch → AContainerRemove (ID c) true ∈ added).
Proof.
  destruct (removeContainers_within batch w) as (added & Ht & Hall).
  exists added. split_and!; [done|done|].
  intros Hnil c Hc.
  destruct (removeContainers_logs batch w) as (runs & added' & Ht' & Hlen & _ & Hm & Hres).
  assert (added' = added) as -> by (rewrite Ht in Ht'; by apply app_inv_head in Ht').
  apply list_elem_of_lookup in Hc as [k Hk].
  destruct (batchLogs_lookup batch runs k c Hlen Hk) as (run & Hrun & Hlog).
  apply Hres in Hnil. eapply Forall_lookup_1 in Hnil; [|exact Hrun]. cbn in Hnil.
  rewrite Hnil in Hlog.
  apply Interleaved_sublist in Hm. eapply Forall_lookup_1 in Hm; [|exact Hlog].
  eapply elem_of_sublist; [|exact Hm]. cbn.
  do 4 apply list_elem_of_further. apply list_elem_of_here.
Qed.

(** The walk over the services: what it adds is about listed containers
    of the services walked; when no batch failed, every container was
    requested to be removed or is left over, and what is left over
    matches none of the services walked. *)
Lemma visit_added (order : list ServiceConfig) (containers : Containers) (w : @World RT) :
  ∃ added,
    trace (visit removeService order containers w).1 = trace w ++ added ∧
    Forall (fun a => ∃ c s, c ∈ containers ∧ s ∈ order ∧
                            isService (SvcName s) c = true ∧ concerns c a) added ∧
    (visit removeService order containers w).2.1 ⊆ containers ∧
    ((visit removeService order containers w).2.2 = None →
     ∀ c, c ∈ containers →
       (c ∈ (visit removeService order containers w).2.1 ∧
        ∀ s, s ∈ order → isService (SvcName s) c = false) ∨
       AContainerRemove (ID c) true ∈ added).
Proof.
  revert containers w. induction order as [|service rest IH]; intros containers w;
    cbn [visit].
  - exists []. cbn. rewrite app_nil_r. split_and!; [done|constructor|done|].
    intros _ c Hc. left. split; [done|]. intros s Hs. by apply not_elem_of_nil in Hs.
  - unfold removeService at 1 3 5 7.
    pose proof (split_matched_elem containers (isService (SvcName service))) as Hmatched.
    pose proof (split_others_elem containers (isService (SvcName service))) as Hothers.
    destruct (split containers (isService (SvcName service))) as [batch remaining].
    cbn [fst snd] in Hmatched, Hothers.
    destruct (removeContainers_nil_added batch w) as (l1 & Ht1 & Hall1 & Hreq1).
    assert (Hall1' : Forall (fun a => ∃ c s, c ∈ containers ∧ s ∈ service :: rest ∧
                               isService (SvcName s) c = true ∧ concerns c a) l1).
    { eapply Forall_impl; [exact Hall1|]. intros a (c & Hc & Ha).
      apply Hmatched in Hc as [Hc Hp]. exists c, service.
      split_and!; [done|apply list_elem_of_here|done|done]. }
    destruct (removeContainers batch w) as [w1 [err|]]; cbn [fst snd] in *.
    + exists l1. split_and!; [done|done| |done].
      intros c Hc. by apply Hothers in Hc as [Hc _].
    + destruct (IH remaining w1) as (l2 & Ht2 & Hall2 & Hsub2 & Hreq2).
      exists (l1 ++ l2). split_and!.
      * by rewrite Ht2, Ht1, app_assoc.
      * apply Forall_app. split; [done|].
        eapply Forall_impl; [exact Hall2|]. intros a (c & s & Hc & Hs & Hp & Ha).
        apply Hothers in Hc as [Hc _]. exists c, s.
        split_and!; [done|by apply list_elem_of_further|done|done].
      * intros c Hc. apply Hsub2 in Hc. by apply Hothers in Hc as [Hc _].
      * intros Hnil c Hc.
        destruct (isService (SvcName service) c) eqn:Hp.
        -- right. apply elem_of_app. left. apply Hreq1; [done|]. by apply Hmatched.
        -- assert (Hin : c ∈ remaining) by by apply Hothers.
           destruct (Hreq2 Hnil c Hin) as [[Ho Hnone]|Hreq].
           ++ left. split; [done|].
              intros s [->|Hs]%elem_of_cons; [done|by apply Hnone].
           ++ right. apply elem_of_app. by right.
Qed.

(** Lines 72-89 from the world [w2]: the networks labelled with
    [projectName] are listed, and each listed network gets one removal
    request; when the listing fails nothing is removed. *)
Lemma sweep_exact (projectName : string) (w2 : @World RT) :
  ∃ removals,
    trace (bind (request (ANetworkList (projectFilter projectName))
                         (NetworkList (projectFilter projectName)))
                (fun networks => returning (removeNetworks networks)) w2).1 =
      trace w2 ++ ANetworkList (projectFilter projectName) :: removals ∧
    match (NetworkList (projectFilter projectName) (rt w2)).2 with
    | inl e =>
        removals = [] ∧
        (bind (request (ANetworkList (projectFilter projectName))
                       (NetworkList (projectFilter projectName)))
              (fun networks => returning (removeNetworks networks)) w2).2 = Fail e
    | inr networks =>
        removals ≡ₚ map (fun n => ANetworkRemove (NetID n)) networks
    end.
Proof.
  set (f := projectFilter projectName).
  pose proof (call_trace (ANetworkList f) (NetworkList f) w2) as Ht.
  pose proof (call_result (ANetworkList f) (NetworkList f) w2) as Hr.
  unfold bind, request.
  destruct (call (ANetworkList f) (NetworkList f) w2) as [w3 [e|networks]];
    cbn [fst snd] in *; rewrite <- Hr.
  - exists []. by split_and!.
  - rewrite returning_world. unfold removeNetworks.
    eexists. split.
    + rewrite networkGroup_trace, Ht, <- app_assoc. reflexivity.
    + change (map ?g ?l) with (g <$> l). f_equiv. apply pickOrder_Permutation.
Qed.

(** [downProject] in two phases: the containers, then the networks. *)
Lemma downProject_phases (projectName : string) (project : Project)
    (removeOrphans : bool) (w : @World RT) :
  ∃ (containerPart : list Action) (w2 : @World RT),
    trace w2 = trace w ++ AContainerList (projectFilter (Name project)) :: containerPart ∧
    Forall (fun a => ∃ containers c,
                (ContainerList (projectFilter (Name project)) (rt w)).2 = inr containers ∧
                c ∈ containers ∧ concerns c a ∧
                (removeOrphans = false → declared project c)) containerPart ∧
    ((∃ e, downProject projectName project removeOrphans w = (w2, Fail e)) ∨
     (downProject projectName project removeOrphans w =
        bind (request (ANetworkList (projectFilter projectName))
                      (NetworkList (projectFilter projectName)))
             (fun networks => returning (removeNetworks networks)) w2 ∧
      ∀ containers c,
        (ContainerList (projectFilter (Name project)) (rt w)).2 = inr containers →
        c ∈ containers → removeOrphans = true ∨ declared project c →
        AContainerRemove (ID c) true ∈ containerPart)).
Proof.
  set (f := projectFilter (Name project)).
  pose proof (call_trace (AContainerList f) (ContainerList f) w) as Ht1.
  pose proof (call_result (AContainerList f) (ContainerList f) w) as Hr1.
  unfold downProject. fold f.
  destruct (call (AContainerList f) (ContainerList f) w) as [w1 [e|containers]] eqn:Hcall;
    cbn [fst snd] in *; rewrite <- Hr1.
  { exists [], w1. split_and!; [done|constructor|]. left. exists e.
    apply bind_fail. unfold request. by rewrite Hcall. }
  erewrite bind_ok; [|unfold request; by rewrite Hcall].
  destruct (reverseDependencyOrder project) as [e|order] eqn:Horder.
  { exists [], w1. split_and!; [done|constructor|]. left. exists e.
    apply bind_fail. unfold InReverseDependencyOrder. by rewrite Horder. }
  destruct (visit_added order containers w1) as (l1 & Htv & Hallv & Hsubv & Hreqv).
  assert (Hallv' : Forall (fun a => ∃ containers' c,
                       @inr error _ containers = inr containers' ∧
                       c ∈ containers' ∧ concerns c a ∧
                       (removeOrphans = false → declared project c)) l1).
  { eapply Forall_impl; [exact Hallv|]. intros a (c & s & Hc & Hs & Hp & Ha).
    exists containers, c. split_and!; [done|done|done|].
    intros _. exists s. split; [|done]. by eapply reverseDependencyOrder_visits. }
  destruct (visit removeService order containers w1) as [wv [others [err|]]] eqn:Hvisit;
    cbn [fst snd] in *.
  { exists l1, wv. split_and!; [by rewrite Htv, Ht1, <- app_assoc|done|].
    left. exists err.
    apply bind_fail. unfold InReverseDependencyOrder. by rewrite Horder, Hvisit. }
  erewrite bind_ok; [|unfold InReverseDependencyOrder; by rewrite Horder, Hvisit].
  specialize (Hreqv eq_refl).
  destruct (removeOrphans && bool_decide (0 < length others)) eqn:Horph.
  - apply andb_true_iff in Horph as [-> Hpos].
    destruct (removeContainers_nil_added others wv) as (l2 & Hto & Hallo & Hreqo).
    assert (Hallo' : Forall (fun a => ∃ containers' c,
                         @inr error _ containers = inr containers' ∧
                         c ∈ containers' ∧ concerns c a ∧
                         (true = false → declared project c)) l2).
    { eapply Forall_impl; [exact Hallo|]. intros a (c & Hc & Ha).
      exists containers, c. split_and!; [done|by apply Hsubv|done|discriminate]. }
    destruct (removeContainers others wv) as [wo [err|]] eqn:Horphans;
      cbn [fst snd] in *.
    + exists (l1 ++ l2), wo. split_and!.
      * by rewrite Hto, Htv, Ht1, <- !app_assoc.
      * by apply Forall_app.
      * left. exists err. apply bind_fail. unfold returning. by rewrite Horphans.
    + exists (l1 ++ l2), wo. split_and!.
      * by rewrite Hto, Htv, Ht1, <- !app_assoc.
      * by apply Forall_app.
      * right. split; [erewrite bind_ok; [reflexivity|unfold returning; by rewrite Horphans]|].
        intros containers' c [= <-] Hc _. apply elem_of_app.
        destruct (Hreqv c Hc) as [[Ho _]|Hreq]; [right|by left]. by apply Hreqo.
  - exists l1, wv. split_and!; [by rewrite Htv, Ht1, <- app_assoc|done|].
    right. split; [erewrite bind_ok; reflexivity|].
    intros containers' c [= <-] Hc Hwhy.
    destruct (Hreqv c Hc) as [[Ho Hnone]|Hreq]; [|done]. exfalso.
    destruct Hwhy as [->|(s & Hs & Hp)].
    + cbn [andb] in Horph. apply bool_decide_eq_false in Horph.
      destruct others; [by apply not_elem_of_nil in Ho|]. cbn in Horph. lia.
    + rewrite Hnone in Hp; [discriminate|].
      eapply reverseOrder_covers; [exact Horder|done].
Qed.

(** Resolving the project (lines 38-44) does nothing, or lists the
    containers once. *)
Lemma resolveProject_trace (projectName : string) (options : DownOptions) (w0 : @World RT) :
  trace (resolveProject projectName options w0).1 =
  trace w0 ++ match OptProject options with
              | None => [AContainerList (projectFilter projectName)]
              | Some _ => []
              end.
Proof.
  unfold resolveProject. destruct (OptProject options) as [project|].
  - cbn. by rewrite app_nil_r.
  - rewrite projectFromContainerLabels_world. apply call_trace.
Qed.

(** [Down] once the project is resolved: the container listing, the work
    on the containers, and, unless that failed, the network sweep. *)
Lemma Down_phases (projectName : string) (options : DownOptions) (project : Project)
    (w0 w : @World RT) :
  resolveProject projectName options w0 = (w, Ok project) →
  ∃ (containerPart networkPart : list Action) (w2 : @World RT),
    trace w2 = trace w ++ AContainerList (projectFilter (Name project)) :: containerPart ∧
    trace (Down projectName options w0).1 = trace w2 ++ networkPart ∧
    Forall (fun a => ∃ containers c,
                (ContainerList (projectFilter (Name project)) (rt w)).2 = inr containers ∧
                c ∈ containers ∧ concerns c a ∧
                (RemoveOrphans options = false → declared project c)) containerPart ∧
    ((∃ e, Down projectName options w0 = (w2, Fail e) ∧ networkPart = []) ∨
     (Down projectName options w0 =
        bind (request (ANetworkList (projectFilter projectName))
                      (NetworkList (projectFilter projectName)))
             (fun networks => returning (removeNetworks networks)) w2 ∧
      (∀ containers c,
         (ContainerList (projectFilter (Name project)) (rt w)).2 = inr containers →
         c ∈ containers → RemoveOrphans options = true ∨ declared project c →
         AContainerRemove (ID c) true ∈ containerPart) ∧
      ∃ removals,
        networkPart = ANetworkList (projectFilter projectName) :: removals ∧
        match (NetworkList (projectFilter projectName) (rt w2)).2 with
        | inl e => removals = [] ∧ (Down projectName options w0).2 = Fail e
        | inr networks => removals ≡ₚ map (fun n => ANetworkRemove (NetID n)) networks
        end)).
Proof.
  intros Hres. rewrite (Down_resolved _ _ _ _ _ Hres).
  destruct (downProject_phases projectName project (RemoveOrphans options) w)
    as (containerPart & w2 & Ht2 & Hall & [(e & Hfail)|[Hsweep Hreq]]).
  - exists containerPart, [], w2. rewrite Hfail. cbn [fst].
    split_and!; [done|by rewrite app_nil_r|done|]. left. by exists e.
  - destruct (sweep_exact projectName w2) as (removals & Ht & Hnet).
    exists containerPart, (ANetworkList (projectFilter projectName) :: removals), w2.
    rewrite Hsweep. split_and!; [done|done|done|].
    right. split_and!; [done|done|]. by exists removals.
Qed.

(** C8. With [RemoveOrphans] false, everything [Down] does from its very
    start, the resolution of the project included, is a container
    listing, an action on a listed container of a declared service (an
    event about it, a request to stop or to remove it), the listing of
    the networks or the removal of a listed network. A listed container
    that matches no declared service, and shares its identifier and its
    name with no other listed container, is therefore never stopped or
    removed and no event is about it. This does not hold idly: when
    [Down] returns nil, every listed container of a declared service has
    been requested to be removed. *)
Theorem orphans_left_alone
    (projectName : string) (options : DownOptions) (project : Project)
    (w0 w : @World RT) (containers : Containers) (orphan : Container) :
  RemoveOrphans options = false →
  resolveProject projectName options w0 = (w, Ok project) →
  (ContainerList (projectFilter (Name project)) (rt w)).2 = inr containers →
  ¬ declared project orphan →
  (∀ c, c ∈ containers →
        ID c = ID orphan ∨ eventNameOf c = eventNameOf orphan → c = orphan) →
  ∃ added,
    trace (Down projectName options w0).1 = trace w0 ++ added ∧
    Forall (fun a => (∃ f, a = AContainerList f) ∨
                     downAction projectName project false w a) added ∧
    Forall (fun a => ¬ concerns orphan a) added ∧
    ((Down projectName options w0).2 = Ok tt →
     ∀ c, c ∈ containers → declared project c →
          AContainerRemove (ID c) true ∈ added).
Proof.
  intros Hkeep Hres Hlist Horphan Hown.
  pose proof (resolveProject_trace projectName options w0) as Hpre.
  rewrite Hres in Hpre. cbn [fst] in Hpre.
  set (pre := match OptProject options with
              | None => [AContainerList (projectFilter projectName)]
              | Some _ => []
              end) in Hpre.
  assert (Hprelist : Forall (fun a => ∃ f, a = AContainerList f) pre).
  { unfold pre. destruct (OptProject options); repeat constructor. by eexists. }
  destruct (Down_phases projectName options project w0 w Hres)
    as (containerPart & networkPart & w2 & Ht2 & Ht & Hall & Hcases).
  rewrite Hkeep in Hall.
  assert (Hnet : Forall (downAction projectName project false w) networkPart ∧
                 Forall (fun a => isContainerAction a = false) networkPart).
  { destruct Hcases as [(e & _ & ->)|(_ & _ & removals & -> & Hnet)]; [by split|].
    assert (Hrem : Forall (fun a => ∃ networks n,
                      (NetworkList (projectFilter projectName) (rt w2)).2 = inr networks ∧
                      n ∈ networks ∧ a = ANetworkRemove (NetID n)) removals).
    { destruct (NetworkList _ (rt w2)).2 as [e|networks]; [destruct Hnet as [-> _]; constructor|].
      apply Forall_forall. intros a Ha. rewrite Hnet in Ha.
      apply list_elem_of_In, in_map_iff in Ha as (n & <- & Hn).
      exists networks, n. split_and!; [done|by apply list_elem_of_In|done]. }
    split; constructor.
    - right. by left.
    - eapply Forall_impl; [exact Hrem|]. intros a (networks & n & ? & ? & ->).
      right. right. by exists (rt w2), networks, n.
    - done.
    - eapply Forall_impl; [exact Hrem|]. by intros a (networks & n & ? & ? & ->). }
  destruct Hnet as [Hnet Hnotc].
  exists (pre ++ AContainerList (projectFilter (Name project)) :: containerPart ++ networkPart).
  split_and!.
  - rewrite Ht, Ht2, Hpre. by rewrite <- !app_assoc.
  - apply Forall_app. split.
    { eapply Forall_impl; [exact Hprelist|]. by left. }
    constructor; [left; by eexists|]. apply Forall_app. split.
    + eapply Forall_impl; [exact Hall|]. intros a (cs & c & ? & ? & ? & ?).
      right. left. by exists cs, c.
    + eapply Forall_impl; [exact Hnet|]. by right.
  - apply Forall_app. split.
    { eapply Forall_impl; [exact Hprelist|]. by intros a [f ->] []. }
    constructor; [by intros []|]. apply Forall_app. split.
    + eapply Forall_impl; [exact Hall|].
      intros a (containers' & c & Hlist' & Hc & Hca & Hdecl) Hoa.
      rewrite Hlist in Hlist'. injection Hlist' as <-.
      apply Horphan. specialize (Hdecl eq_refl).
      assert (c = orphan) as <-; [|done].
      apply Hown; [done|].
      destruct a as [e|?|id|id force|?|?]; cbn in Hca, Hoa; try done.
      * right. congruence.
      * left. congruence.
      * left. destruct Hca, Hoa. congruence.
    + eapply Forall_impl; [exact Hnotc|]. intros a Ha Hoa.
      apply concerns_container_action in Hoa. congruence.
  - intros Hok c Hc Hdecl.
    destruct Hcases as [(e & Hfail & _)|(_ & Hreq & _)].
    { rewrite Hfail in Hok. discriminate. }
    apply elem_of_app. right. apply list_elem_of_further, elem_of_app. left.
    eapply Hreq; eauto.
Qed.

(** C9. Once the project is resolved, [Down] lists the containers
    labelled with the name of [options.Project] and works on containers of
    that listing only; on success every listed container of a declared
    service (every listed container, when orphans go too) is requested to
    be removed. If that work fails [Down] returns the error and touches no
    network. Otherwise [Down] goes on with exactly the network sweep: it
    lists the networks labelled with the [projectName] argument and
    requests the removal of each network of that listing, once. Hence,
    over a runtime whose listings return what carries the requested
    project label, the containers torn down are listed containers carrying
    the project's name and the networks torn down are listed networks
    carrying [projectName]: two different label values when the caller's
    project is named otherwise. *)
Theorem listings_use_two_names
    (projectName : string) (options : DownOptions) (project : Project)
    (w0 w : @World RT) :
  resolveProject projectName options w0 = (w, Ok project) →
  ∃ (containerPart networkPart : list Action) (w2 : @World RT),
    trace w2 = trace w ++ AContainerList (projectFilter (Name project)) :: containerPart ∧
    trace (Down projectName options w0).1 = trace w2 ++ networkPart ∧
    Forall (fun a => ∃ containers c,
                (ContainerList (projectFilter (Name project)) (rt w)).2 = inr containers ∧
                c ∈ containers ∧ concerns c a) containerPart ∧
    ((∃ e, Down projectName options w0 = (w2, Fail e) ∧ networkPart = []) ∨
     (Down projectName options w0 =
        bind (request (ANetworkList (projectFilter projectName))
                      (NetworkList (projectFilter projectName)))
             (fun networks => returning (removeNetworks networks)) w2 ∧
      (∀ containers c,
         (ContainerList (projectFilter (Name project)) (rt w)).2 = inr containers →
         c ∈ containers → RemoveOrphans options = true ∨ declared project c →
         AContainerRemove (ID c) true ∈ containerPart) ∧
      ∃ removals,
        networkPart = ANetworkList (projectFilter projectName) :: removals ∧
        match (NetworkList (projectFilter projectName) (rt w2)).2 with
        | inl e => removals = [] ∧ (Down projectName options w0).2 = Fail e
        | inr networks => removals ≡ₚ map (fun n => ANetworkRemove (NetID n)) networks
        end)) ∧
    ((∀ r cs c, (ContainerList (projectFilter (Name project)) r).2 = inr cs →
                c ∈ cs → label c projectLabel = Name project) →
     (∀ r ns x, (NetworkList (projectFilter projectName) r).2 = inr ns →
                x ∈ ns → default "" (NetLabels x !! projectLabel) = projectName) →
     Forall (fun a => ∃ containers c,
                (ContainerList (projectFilter (Name project)) (rt w)).2 = inr containers ∧
                c ∈ containers ∧ concerns c a ∧
                label c projectLabel = Name project) containerPart ∧
     Forall (fun a => a = ANetworkList (projectFilter projectName) ∨
                      ∃ networks x,
                        (NetworkList (projectFilter projectName) (rt w2)).2 = inr networks ∧
                        x ∈ networks ∧ a = ANetworkRemove (NetID x) ∧
                        default "" (NetLabels x !! projectLabel) = projectName)
            networkPart).
Proof.
  intros Hres.
  destruct (Down_phases projectName options project w0 w Hres)
    as (containerPart & networkPart & w2 & Ht2 & Ht & Hall & Hcases).
  exists containerPart, networkPart, w2.
  split_and!; [done|done| |done|].
  - eapply Forall_impl; [exact Hall|]. intros a (cs & c & ? & ? & ? & _). by exists cs, c.
  - intros Hcontainers Hnetworks. split.
    + eapply Forall_impl; [exact Hall|]. intros a (cs & c & Hlist & Hc & Hca & _).
      exists cs, c. split_and!; [done|done|done|]. by eapply Hcontainers.
    + destruct Hcases as [(e & _ & ->)|(_ & _ & removals & -> & Hnet)]; [constructor|].
      constructor; [by left|].
      destruct (NetworkList _ (rt w2)).2 as [e|networks] eqn:Hlist;
        [destruct Hnet as [-> _]; constructor|].
      apply Forall_forall. intros a Ha. rewrite Hnet in Ha.
      apply list_elem_of_In, in_map_iff in Ha as (x & <- & Hx).
      apply list_elem_of_In in Hx.
      right. exists networks, x. split_and!; [done|done|done|]. by eapply Hnetworks.
Qed.

(** X10. When the project cannot be resolved, [Down] was called by name
    only, it returns the error of the reconstruction (a failed listing,
    options that cannot be built, a declaration that cannot be parsed),
    and all it has done is the one container listing of the
    reconstruction. *)
Theorem Down_aborts_when_resolution_fails
    (projectName : string) (options : DownOptions) (w0 : @World RT) (e : error) :
  (resolveProject projectName options w0).2 = Fail e →
  OptProject options = None ∧
  (Down projectName options w0).2 = Fail e ∧
  trace (Down projectName options w0).1 =
    trace w0 ++ [AContainerList (projectFilter projectName)] ∧
  rt (Down projectName options w0).1 =
    (ContainerList (projectFilter projectName) (rt w0)).1.
Proof.
  intros Hfail.
  destruct (OptProject options) as [project|] eqn:Hopt.
  { unfold resolveProject in Hfail. rewrite Hopt in Hfail. discriminate. }
  pose proof (resolveProject_trace projectName options w0) as Ht.
  rewrite Hopt in Ht.
  assert (Hrt : rt (resolveProject projectName options w0).1 =
                (ContainerList (projectFilter projectName) (rt w0)).1).
  { unfold resolveProject. rewrite Hopt, projectFromContainerLabels_world.
    apply call_runtime. }
  destruct (resolveProject projectName options w0) as [w' r] eqn:Hres.
  cbn [fst snd] in *. subst r.
  unfold Down. rewrite (bind_fail _ _ _ _ _ Hres). by split_and!.
Qed.


End DownFacts.

(** ** The teardown on concrete inputs *)

Example strings_Split_two :
  strings_Split "a.yml,/x/b.yml" ","%char = ["a.yml"; "/x/b.yml"].
Proof. reflexivity. Qed.

Example strings_Split_empty : strings_Split "" ","%char = [""].
Proof. reflexivity. Qed.

Example filepath_Base_absolute :
  filepath_Base "/srv/app/docker-compose.yml" = "docker-compose.yml".
Proof. reflexivity. Qed.

Example filepath_Base_stdin : filepath_Base "-" = "-".
Proof. reflexivity. Qed.

Example filepath_Base_slashes : filepath_Base "///" = "/".
Proof. reflexivity. Qed.

Example filepath_Base_trailing : filepath_Base "a/b//" = "b".
Proof. reflexivity. Qed.

(** A container without the config-files label: one config path, ["."]. *)
Example loadProjectOptionsFromLabels_no_label :
  @loadProjectOptionsFromLabels Sim.platform (mkContainer "id" ["/c"] ∅) =
  Ok (mkProjectOptions "" "" ["."] []).
Proof. reflexivity. Qed.

Example reverseDependencyOrder_shop :
  reverseDependencyOrder Sim.shop = inr [mkService "web" ["db"]; mkService "db" []].
Proof. reflexivity. Qed.

Example reverseDependencyOrder_cycle :
  reverseDependencyOrder (mkProject "p" [mkService "a" ["b"]; mkService "b" ["a"]]) =
  inl CycleError.
Proof. reflexivity. Qed.

(** When every goroutine runs before the loop moves on, each container is
    stopped and then removed. *)
Example removeContainers_eager :
  trace (@removeContainers _ Sim.api Sim.platform Sim.eager [Sim.web1; Sim.web2]
           (Sim.start (Sim.mkRuntime [Sim.web1; Sim.web2] [] [] []))).1 =
  [AEvent (StoppingEvent "Container shop_web_1"); AContainerStop "id-web-1";
   AEvent (StoppedEvent "Container shop_web_1");
   AEvent (RemovingEvent "Container shop_web_1"); AContainerRemove "id-web-1" true;
   AEvent (RemovedEvent "Container shop_web_1");
   AEvent (StoppingEvent "Container shop_web_2"); AContainerStop "id-web-2";
   AEvent (StoppedEvent "Container shop_web_2");
   AEvent (RemovingEvent "Container shop_web_2"); AContainerRemove "id-web-2" true;
   AEvent (RemovedEvent "Container shop_web_2")].
Proof. vm_compute. reflexivity. Qed.

(** C1. The batch [shop_web_1; shop_web_2], the loop ending before any
    goroutine runs. The goroutine started for [shop_web_1] (its [toDelete])
    builds the argument of [stopContainers] from the range variable, which
    by then holds [shop_web_2]: it stops [shop_web_2] and removes
    [shop_web_1]. In the whole run [shop_web_1] is removed without its stop
    ever being requested and [shop_web_2] is stopped twice. *)
Theorem removeContainers_stops_another_container :
  units (foldl (@step _ Sim.api Sim.platform)
           (startGroup [Sim.web1; Sim.web2]
              (Sim.start (Sim.mkRuntime [Sim.web1; Sim.web2] [] [] [])))
           [Main; Main; Go 0]) !! 0 =
    Some (mkUnit Sim.web1 (UStopping (SLoop [Sim.web2]))) ∧
  @removeContainers _ Sim.api Sim.platform Sim.loopFirst [Sim.web1; Sim.web2]
    (Sim.start (Sim.mkRuntime [Sim.web1; Sim.web2] [] [] [])) =
  (mkWorld (Sim.mkRuntime [] [] [] [])
     [AEvent (StoppingEvent "Container shop_web_2"); AContainerStop "id-web-2";
      AEvent (StoppedEvent "Container shop_web_2");
      AEvent (RemovingEvent "Container shop_web_1"); AContainerRemove "id-web-1" true;
      AEvent (RemovedEvent "Container shop_web_1");
      AEvent (StoppingEvent "Container shop_web_2"); AContainerStop "id-web-2";
      AEvent (StoppedEvent "Container shop_web_2");
      AEvent (RemovingEvent "Container shop_web_2"); AContainerRemove "id-web-2" true;
      AEvent (RemovedEvent "Container shop_web_2")],
   None).
Proof. split; vm_compute; reflexivity. Qed.

(** C3. In the same run the events about [shop_web_2] are stopping,
    stopped, stopping, stopped, removing, removed, and the events about
    [shop_web_1] are removing, removed: neither is the sequence stopping,
    stopped, removing, removed nor a prefix of it closed by an error. *)
Theorem removeContainers_events_out_of_order :
  eventsFor "Container shop_web_2"
    (trace (@removeContainers _ Sim.api Sim.platform Sim.loopFirst [Sim.web1; Sim.web2]
              (Sim.start (Sim.mkRuntime [Sim.web1; Sim.web2] [] [] []))).1) =
    [StoppingEvent "Container shop_web_2"; StoppedEvent "Container shop_web_2";
     StoppingEvent "Container shop_web_2"; StoppedEvent "Container shop_web_2";
     RemovingEvent "Container shop_web_2"; RemovedEvent "Container shop_web_2"] ∧
  eventsFor "Container shop_web_1"
    (trace (@removeContainers _ Sim.api Sim.platform Sim.loopFirst [Sim.web1; Sim.web2]
              (Sim.start (Sim.mkRuntime [Sim.web1; Sim.web2] [] [] []))).1) =
    [RemovingEvent "Container shop_web_1"; RemovedEvent "Container shop_web_1"].
Proof. split; vm_compute; reflexivity. Qed.

(** C4. The batch [shop_web_1; shop_web_2; shop_web_3] over a runtime that
    refuses to stop [shop_web_2]; goroutine 0 reads the range variable
    after the second assignment and goroutine 1 after the third. The stop
    of [shop_web_2] is requested (by goroutine 0) and fails, the error
    event about it is emitted and the batch returns that error; yet
    goroutine 1, having stopped [shop_web_3], emits removing and removed
    for [shop_web_2] and removes it. *)
Theorem removeContainers_removes_after_failed_stop :
  @removeContainers _ Sim.api Sim.platform Sim.lateRead [Sim.web1; Sim.web2; Sim.web3]
    (Sim.start (Sim.mkRuntime [Sim.web1; Sim.web2; Sim.web3] [] ["id-web-2"] [])) =
  (mkWorld (Sim.mkRuntime [Sim.web1] [] ["id-web-2"] [])
     [AEvent (StoppingEvent "Container shop_web_2"); AContainerStop "id-web-2";
      AEvent (ErrorMessageEvent "Container shop_web_2" "Error while Stopping");
      AEvent (StoppingEvent "Container shop_web_3"); AContainerStop "id-web-3";
      AEvent (StoppedEvent "Container shop_web_3");
      AEvent (RemovingEvent "Container shop_web_2"); AContainerRemove "id-web-2" true;
      AEvent (RemovedEvent "Container shop_web_2");
      AEvent (StoppingEvent "Container shop_web_3"); AContainerStop "id-web-3";
      AEvent (StoppedEvent "Container shop_web_3");
      AEvent (RemovingEvent "Container shop_web_3"); AContainerRemove "id-web-3" true;
      AEvent (RemovedEvent "Container shop_web_3")],
   Some "cannot stop id-web-2") ∧
  eventsFor "Container shop_web_2"
    (trace (@removeContainers _ Sim.api Sim.platform Sim.lateRead
              [Sim.web1; Sim.web2; Sim.web3]
              (Sim.start (Sim.mkRuntime [Sim.web1; Sim.web2; Sim.web3] [] ["id-web-2"] []))).1) =
    [StoppingEvent "Container shop_web_2";
     ErrorMessageEvent "Container shop_web_2" "Error while Stopping";
     RemovingEvent "Container shop_web_2"; RemovedEvent "Container shop_web_2"].
Proof. split; vm_compute; reflexivity. Qed.

(** C2, refuted as stated. Two containers of the one service [web],
    created from a definition read on stdin: one distinct service name is
    observed, and the reconstructed project has two services, both named
    [web]. *)
Lemma sentinel_repeats_shared_name :
  (@projectFromContainerLabels _ Sim.api Sim.platform "shop"
     (Sim.start (Sim.mkRuntime [Sim.web1; Sim.web2] [] [] []))).2 =
    Ok (mkProject "shop" [mkService "web" []; mkService "web" []]) ∧
  remove_dups (map (fun c => label c Sim.composeService) [Sim.web1; Sim.web2]) = ["web"] ∧
  ¬ NoDup (map SvcName [mkService "web" []; mkService "web" []]).
Proof.
  split_and!; [vm_compute; reflexivity|vm_compute; reflexivity|].
  cbn. intros Hnd. apply NoDup_cons in Hnd as [Hin _]. apply Hin. apply list_elem_of_here.
Qed.

Lemma sentinel_one_service_per_container_witness :
  @projectFromContainerLabels _ Sim.api Sim.platform "shop"
    (Sim.start (Sim.mkRuntime [Sim.web1; Sim.db1; Sim.web2] [] [] [])) =
  (mkWorld (Sim.mkRuntime [Sim.web1; Sim.db1; Sim.web2] [] [] [])
           [AContainerList (projectFilter "shop")],
   Ok (mkProject "shop" [mkService "web" []; mkService "db" []; mkService "web" []])).
Proof.
  apply (@sentinel_one_service_per_container _ Sim.api Sim.platform "shop"
           (Sim.start (Sim.mkRuntime [Sim.web1; Sim.db1; Sim.web2] [] [] []))
           (mkWorld (Sim.mkRuntime [Sim.web1; Sim.db1; Sim.web2] [] [] [])
                    [AContainerList (projectFilter "shop")])
           Sim.web1 [Sim.db1; Sim.web2]
           (mkProjectOptions "shop" "" ["-"] []) []);
    vm_compute; reflexivity.
Defined.

Lemma split_partitions_witness :
  split [Sim.web1; Sim.db1; Sim.web2] (@isService Sim.platform "web") =
    ([Sim.web1; Sim.web2], [Sim.db1]) ∧
  split [Sim.db1] (@isService Sim.platform "web") = ([], [Sim.db1]).
Proof.
  split; [vm_compute; reflexivity|].
  apply (split_partitions [Sim.db1] (@isService Sim.platform "web")).
  intros c Hc. apply list_elem_of_singleton in Hc as ->. vm_compute. reflexivity.
Defined.

(** [shop] with an orphan; the runtime refuses to stop [shop_db_1]. The
    batch of [web] succeeds, the batch of [db] fails: [Down] ends there. *)
Lemma Down_aborts_at_failed_batch_witness :
  @Down _ Sim.api Sim.platform Sim.eager "shop" (mkDownOptions (Some Sim.shop) true)
    (Sim.start (Sim.mkRuntime [Sim.web1; Sim.db1; Sim.cache1] [Sim.shopNet] ["id-db-1"] [])) =
  (mkWorld (Sim.mkRuntime [Sim.db1; Sim.cache1] [Sim.shopNet] ["id-db-1"] [])
     [AContainerList (projectFilter "shop");
      AEvent (StoppingEvent "Container shop_web_1"); AContainerStop "id-web-1";
      AEvent (StoppedEvent "Container shop_web_1");
      AEvent (RemovingEvent "Container shop_web_1"); AContainerRemove "id-web-1" true;
      AEvent (RemovedEvent "Container shop_web_1");
      AEvent (StoppingEvent "Container shop_db_1"); AContainerStop "id-db-1";
      AEvent (ErrorMessageEvent "Container shop_db_1" "Error while Stopping")],
   Fail "cannot stop id-db-1").
Proof.
  eapply (@Down_aborts_at_failed_batch _ Sim.api Sim.platform Sim.eager
            "shop" (mkDownOptions (Some Sim.shop) true) Sim.shop
            _ _ _ _ _ [Sim.web1; Sim.db1; Sim.cache1] [Sim.db1; Sim.cache1]
            [mkService "web" ["db"]] [] (mkService "db" [])).
  - vm_compute. reflexivity.
  - vm_compute. reflexivity.
  - vm_compute. reflexivity.
  - vm_compute. reflexivity.
  - vm_compute. reflexivity.
Defined.

Lemma Down_of_nothing_witness :
  (@Down _ Sim.api Sim.platform Sim.loopFirst "shop" (mkDownOptions None true)
     (Sim.start (Sim.mkRuntime [] [Sim.storeNet] [] []))).2 = Ok tt ∧
  trace (@Down _ Sim.api Sim.platform Sim.loopFirst "shop" (mkDownOptions None true)
           (Sim.start (Sim.mkRuntime [] [Sim.storeNet] [] []))).1 =
    [AContainerList (projectFilter "shop"); AContainerList (projectFilter "shop");
     ANetworkList (projectFilter "shop")].
Proof.
  destruct (@Down_of_nothing _ Sim.api Sim.platform Sim.loopFirst "shop" true
              (Sim.start (Sim.mkRuntime [] [Sim.storeNet] [] [])))
    as (_ & w2 & _ & Hrt & _ & Hnothing).
  - vm_compute. reflexivity.
  - vm_compute. reflexivity.
  - apply Hnothing. rewrite Hrt. vm_compute. reflexivity.
Defined.

(** The simulated runtime lists what carries the requested label. *)
Lemma Sim_lists_containers_by_label (n : string) (r : Sim.Runtime)
    (cs : list Container) (c : Container) :
  (@ContainerList _ Sim.api (projectFilter n) r).2 = inr cs →
  c ∈ cs → label c (@projectLabel Sim.platform) = n.
Proof.
  cbn. intros [= <-] Hc. apply list_elem_of_filter in Hc as [Hp _].
  unfold label. cbn in Hp |- *. by rewrite Hp.
Qed.

Lemma Sim_lists_networks_by_label (n : string) (r : Sim.Runtime)
    (ns : list Network) (x : Network) :
  (@NetworkList _ Sim.api (projectFilter n) r).2 = inr ns →
  x ∈ ns → default "" (NetLabels x !! @projectLabel Sim.platform) = n.
Proof.
  cbn. intros [= <-] Hx. apply list_elem_of_filter in Hx as [Hp _].
  cbn in Hp |- *. by rewrite Hp.
Qed.

(** [shop] with the orphan [shop_cache_1], orphans kept, the project
    resolved by name from the compose file on disk. *)
Lemma orphans_left_alone_witness :
  ∃ added,
    trace (@Down _ Sim.api Sim.onDisk Sim.loopFirst "shop" (mkDownOptions None false)
             (Sim.start (Sim.mkRuntime [Sim.fileWeb1; Sim.fileDb1; Sim.fileCache1]
                                       [Sim.shopNet] [] []))).1 = added ∧
    Forall (fun a => ¬ @concerns Sim.onDisk Sim.fileCache1 a) added ∧
    AContainerRemove "id-web-1" true ∈ added ∧
    AContainerRemove "id-db-1" true ∈ added.
Proof.
  destruct (@orphans_left_alone _ Sim.api Sim.onDisk Sim.loopFirst "shop"
              (mkDownOptions None false) Sim.shop
              (Sim.start (Sim.mkRuntime [Sim.fileWeb1; Sim.fileDb1; Sim.fileCache1]
                                        [Sim.shopNet] [] []))
              (mkWorld (Sim.mkRuntime [Sim.fileWeb1; Sim.fileDb1; Sim.fileCache1]
                                      [Sim.shopNet] [] [])
                       [AContainerList (projectFilter "shop")])
              [Sim.fileWeb1; Sim.fileDb1; Sim.fileCache1] Sim.fileCache1)
    as (added & Ht & _ & Hno & Hremoved).
  - reflexivity.
  - vm_compute. reflexivity.
  - vm_compute. reflexivity.
  - intros (s & Hs & His).
    apply elem_of_cons in Hs as [->|Hs]; [vm_compute in His; discriminate|].
    apply list_elem_of_singleton in Hs as ->. vm_compute in His. discriminate.
  - intros c Hc Hsame.
    apply elem_of_cons in Hc as [->|Hc];
      [destruct Hsame as [Hsame|Hsame]; vm_compute in Hsame; discriminate|].
    apply elem_of_cons in Hc as [->|Hc];
      [destruct Hsame as [Hsame|Hsame]; vm_compute in Hsame; discriminate|].
    by apply list_elem_of_singleton in Hc as ->.
  - assert (Hnil : (@Down _ Sim.api Sim.onDisk Sim.loopFirst "shop"
                      (mkDownOptions None false)
                      (Sim.start (Sim.mkRuntime [Sim.fileWeb1; Sim.fileDb1; Sim.fileCache1]
                                                [Sim.shopNet] [] []))).2 = Ok tt).
    { vm_compute. reflexivity. }
    exists added. split_and!.
    + exact Ht.
    + exact Hno.
    + apply (Hremoved Hnil Sim.fileWeb1).
      * apply list_elem_of_here.
      * exists (mkService "web" ["db"]). split; [apply list_elem_of_here|].
        vm_compute. reflexivity.
    + apply (Hremoved Hnil Sim.fileDb1).
      * apply list_elem_of_further, list_elem_of_here.
      * exists (mkService "db" []). split;
          [apply list_elem_of_further, list_elem_of_here|].
        vm_compute. reflexivity.
Defined.

(** The caller's project is [shop], the name given is [store]: the
    containers of [shop] and the networks of [store] are torn down. *)
Lemma listings_use_two_names_witness :
  ∃ containerPart networkPart,
    trace (@Down _ Sim.api Sim.platform Sim.eager "store"
             (mkDownOptions (Some Sim.shop) true)
             (Sim.start (Sim.mkRuntime [Sim.web1; Sim.db1]
                                       [Sim.shopNet; Sim.storeNet] [] []))).1 =
      AContainerList (projectFilter "shop") :: containerPart ++ networkPart ∧
    AContainerRemove "id-web-1" true ∈ containerPart ∧
    Forall (fun a => ∃ c, @concerns Sim.platform c a ∧
                          label c Sim.composeProject = "shop") containerPart ∧
    (∃ removals, networkPart = ANetworkList (projectFilter "store") :: removals) ∧
    Forall (fun a => a = ANetworkList (projectFilter "store") ∨
                     ∃ x, a = ANetworkRemove (NetID x) ∧
                          default "" (NetLabels x !! Sim.composeProject) = "store")
           networkPart.
Proof.
  assert (Hnil : (@Down _ Sim.api Sim.platform Sim.eager "store"
                    (mkDownOptions (Some Sim.shop) true)
                    (Sim.start (Sim.mkRuntime [Sim.web1; Sim.db1]
                                              [Sim.shopNet; Sim.storeNet] [] []))).2 = Ok tt).
  { vm_compute. reflexivity. }
  destruct (@listings_use_two_names _ Sim.api Sim.platform Sim.eager "store"
              (mkDownOptions (Some Sim.shop) true) Sim.shop
              (Sim.start (Sim.mkRuntime [Sim.web1; Sim.db1] [Sim.shopNet; Sim.storeNet] [] []))
              (Sim.start (Sim.mkRuntime [Sim.web1; Sim.db1] [Sim.shopNet; Sim.storeNet] [] [])))
    as (containerPart & networkPart & w2 & Ht2 & Ht & _ & Hcases & Hlabels).
  - reflexivity.
  - destruct Hcases as [(e & Hfail & _)|(_ & Hremoved & removals & Hnet & _)].
    { rewrite Hfail in Hnil. cbn [snd] in Hnil. discriminate Hnil. }
    destruct Hlabels as [Hcs Hns].
    { apply Sim_lists_containers_by_label. }
    { apply Sim_lists_networks_by_label. }
    exists containerPart, networkPart. split_and!.
    + rewrite Ht, Ht2. reflexivity.
    + apply (Hremoved [Sim.web1; Sim.db1] Sim.web1).
      * vm_compute. reflexivity.
      * apply list_elem_of_here.
      * left. reflexivity.
    + eapply Forall_impl; [exact Hcs|].
      intros a (containers & c & _ & _ & Hc & Hl). exists c. split; [exact Hc|exact Hl].
    + exists removals. exact Hnet.
    + eapply Forall_impl; [exact Hns|].
      intros a [->|(networks & x & _ & _ & -> & Hl)]; [left; reflexivity|].
      right. exists x. split; [reflexivity|exact Hl].
Defined.

(** A container without labels: no working directory to resolve, and the
    one config path ["."]. *)
Lemma ConfigPaths_never_empty_witness :
  ∃ options,
    @loadProjectOptionsFromLabels Sim.platform Sim.bare = Ok options ∧
    WorkingDir options = "" ∧ ConfigPaths options = ["."].
Proof.
  destruct (@ConfigPaths_never_empty _ Sim.api Sim.platform Sim.bare)
    as [(options & Hload & Hdir & _ & _ & Hdot) _].
  exists options. split_and!.
  - exact Hload.
  - exact Hdir.
  - apply Hdot. reflexivity.
Defined.

(** Two containers of one service, the loop ending before either
    goroutine runs: both are removed all the same. *)
Lemma removeContainers_nil_removes_all_witness :
  sublist (@removedActions Sim.platform Sim.web1)
    (trace (@removeContainers _ Sim.api Sim.platform Sim.loopFirst [Sim.web1; Sim.web2]
              (Sim.start (Sim.mkRuntime [Sim.web1; Sim.web2] [] [] []))).1) ∧
  sublist (@removedActions Sim.platform Sim.web2)
    (trace (@removeContainers _ Sim.api Sim.platform Sim.loopFirst [Sim.web1; Sim.web2]
              (Sim.start (Sim.mkRuntime [Sim.web1; Sim.web2] [] [] []))).1).
Proof.
  destruct (@removeContainers_nil_removes_all _ Sim.api Sim.platform Sim.loopFirst
              [Sim.web1; Sim.web2]
              (Sim.start (Sim.mkRuntime [Sim.web1; Sim.web2] [] [] [])))
    as (added & Ht & Hall).
  - vm_compute. reflexivity.
  - rewrite Ht. split.
    + apply (Hall Sim.web1), list_elem_of_here.
    + apply (Hall Sim.web2), list_elem_of_further, list_elem_of_here.
Defined.


(** By name only, on a host where the compose file of the containers is
    gone: [Down] lists the containers once and returns the load error. *)
Lemma Down_aborts_when_resolution_fails_witness :
  (@Down _ Sim.api Sim.platform Sim.eager "shop" (mkDownOptions None true)
     (Sim.start (Sim.mkRuntime [Sim.fileWeb1; Sim.fileDb1] [Sim.shopNet] [] []))).2 =
    Fail "no such file: compose.yaml" ∧
  trace (@Down _ Sim.api Sim.platform Sim.eager "shop" (mkDownOptions None true)
           (Sim.start (Sim.mkRuntime [Sim.fileWeb1; Sim.fileDb1] [Sim.shopNet] [] []))).1 =
    [AContainerList (projectFilter "shop")].
Proof.
  destruct (@Down_aborts_when_resolution_fails _ Sim.api Sim.platform Sim.eager
              "shop" (mkDownOptions None true)
              (Sim.start (Sim.mkRuntime [Sim.fileWeb1; Sim.fileDb1] [Sim.shopNet] [] []))
              "no such file: compose.yaml")
    as (_ & Hfail & Ht & _).
  - vm_compute. reflexivity.
  - split; [exact Hfail|exact Ht].
Defined.

Example Down_two_names :
  trace (@Down _ Sim.api Sim.platform Sim.eager "store"
           (mkDownOptions (Some Sim.shop) true)
           (Sim.start (Sim.mkRuntime [Sim.web1; Sim.db1]
                                     [Sim.shopNet; Sim.storeNet] [] []))).1 =
  [AContainerList (projectFilter "shop");
   AEvent (StoppingEvent "Container shop_web_1"); AContainerStop "id-web-1";
   AEvent (StoppedEvent "Container shop_web_1");
   AEvent (RemovingEvent "Container shop_web_1"); AContainerRemove "id-web-1" true;
   AEvent (RemovedEvent "Container shop_web_1");
   AEvent (StoppingEvent "Container shop_db_1"); AContainerStop "id-db-1";
   AEvent (StoppedEvent "Container shop_db_1");
   AEvent (RemovingEvent "Container shop_db_1"); AContainerRemove "id-db-1" true;
   AEvent (RemovedEvent "Container shop_db_1");
   ANetworkList (projectFilter "store"); ANetworkRemove "id-store-net"].
Proof. vm_compute. reflexivity. Qed.
